(** * WordSeek: the game session engine of the word-guessing bot

    A shallow embedding of the bot's game logic ([B.py], and the SQLite
    variant [wordseek.py] where it differs) and the properties its
    specification states about it.

    Conventions of the embedding:
    - A Python [str] is a [string] whose characters are the code points
      U+0000 to U+00FF, one [ascii] each; [lower], [strip], [isalpha] and
      [int] are Python's on these code points. Text with a code point
      above U+00FF is outside the model.
    - The collections of [B.py] are MongoDB collections read and written
      through pymongo: a document holds what BSON can hold. A Python [set]
      cannot be encoded ([insert_one] and [update_one] raise
      [InvalidDocument]), and an array is read back as a [list].
    - The tables of [wordseek.py] are SQLite tables; a statement that
      writes, issued on a second connection while the first has an
      uncommitted write, raises [OperationalError] (database is locked).
    - Python [dict]s and documents keyed by strings are [gmap string _];
      collections that the code only ever addresses through one key
      ([chat_id], [user_id]) are [gmap Z _] on that key.
    - An uncaught Python exception is an explicit result ([None], or one of
      the [Raised] replies), never a missing case.
    - Every clock reading and random draw of a handler is an argument of its
      model: [time.time()] is an integer number of seconds, [datetime.now()]
      a record of calendar fields.
    - Handlers run one at a time, each on the store its predecessor left. *)

From Stdlib Require Import ZArith List Ascii String Lia.
From stdpp Require Import base option list gmap strings pretty sorting.

Open Scope Z_scope.

(** ** HintEngine: [get_hint] *)

Module Hint.

(** The three emoji [get_hint] emits: 🟩 ([Correct]), 🟨 ([Present]),
    🟥 ([Absent]). *)
Inductive mark := Correct | Present | Absent.

Global Instance mark_eq_dec : EqDecision mark.
Proof. solve_decision. Defined.

Definition chars (s : string) : list ascii := list_ascii_of_string s.

(** [x in target_list] / [target_list.index(x)]: the first index holding
    [Some c], if there is one. *)
Fixpoint index_of (c : ascii) (target_list : list (option ascii)) : option nat :=
  match target_list with
  | [] => None
  | x :: rest =>
      if decide (x = Some c) then Some 0%nat
      else S <$> index_of c rest
  end.

(** The body of [for i in range(len(guess))], from index [i] on; [rest] is
    [guess[i:]]. [target[i]] raises [IndexError] when the target is shorter
    than the guess: the result is then [None]. *)
Fixpoint hint_loop (target : list ascii) (i : nat) (rest : list ascii)
    (target_list : list (option ascii)) : option (list mark) :=
  match rest with
  | [] => Some []
  | c :: rest' =>
      match target !! i with
      | None => None
      | Some t =>
          if decide (c = t) then
            (Correct ::.) <$> hint_loop target (S i) rest' (<[i := None]> target_list)
          else
            match index_of c target_list with
            | Some j =>
                (Present ::.) <$> hint_loop target (S i) rest' (<[j := None]> target_list)
            | None =>
                (Absent ::.) <$> hint_loop target (S i) rest' target_list
            end
      end
  end.

(** [get_hint(guess, target)] of both source files, as the list of marks
    that the source joins into one string. *)
Definition get_hint (guess target : string) : option (list mark) :=
  hint_loop (chars target) 0 (chars guess) (Some <$> chars target).

(** *** The two-pass algorithm, as the specification words it *)

(** Pass 1: every position with [guess[i] == target[i]] consumes its target
    letter; what is left is the pool for [Present] matching. *)
Fixpoint pass1_pool (guess target : list ascii) : list (option ascii) :=
  match guess, target with
  | g :: guess', t :: target' =>
      (if decide (g = t) then None else Some t) :: pass1_pool guess' target'
  | _, _ => Some <$> target
  end.

(** Pass 2, left to right over the positions not marked [Correct]. *)
Fixpoint pass2 (guess target : list ascii) (pool : list (option ascii)) : list mark :=
  match guess, target with
  | g :: guess', t :: target' =>
      if decide (g = t) then Correct :: pass2 guess' target' pool
      else
        match index_of g pool with
        | Some j => Present :: pass2 guess' target' (<[j := None]> pool)
        | None => Absent :: pass2 guess' target' pool
        end
  | _, _ => []
  end.

Definition hint_two_pass (guess target : string) : list mark :=
  pass2 (chars guess) (chars target) (pass1_pool (chars guess) (chars target)).

(** The invariant that relates the two algorithms: a pool over the
    target [T] from which only letters in [R] have been consumed. *)
Definition good (T : list ascii) (R : ascii → Prop) (P : list (option ascii)) : Prop :=
  length P = length T
  ∧ (∀ k x, P !! k = Some (Some x) → T !! k = Some x)
  ∧ (∀ k x, T !! k = Some x → ¬ R x → P !! k = Some (Some x)).

End Hint.


(** ** Text: what the handlers do to a message text

    The character functions of Python on the code points below 256. *)

Module Text.

Definition code (c : ascii) : N := N_of_ascii c.

(** The characters [str.lower] changes: [A]-[Z], and U+00C0-U+00DE
    without the multiplication sign U+00D7. *)
Definition is_upper (c : ascii) : bool :=
  (((65 <=? code c) && (code c <=? 90))
   || ((192 <=? code c) && (code c <=? 222) && negb (code c =? 215)))%N.

(** [str.isalpha] on one character: the ASCII letters, the ordinal
    indicators U+00AA and U+00BA, the micro sign U+00B5, and U+00C0-U+00FF
    without the multiplication and the division sign. *)
Definition is_alpha (c : ascii) : bool :=
  (((65 <=? code c) && (code c <=? 90))
   || ((97 <=? code c) && (code c <=? 122))
   || (code c =? 170) || (code c =? 181) || (code c =? 186)
   || ((192 <=? code c) && negb (code c =? 215) && negb (code c =? 247)))%N.

(** [str.isspace] on one character: tab, LF, VT, FF, CR, the four
    separators U+001C-U+001F, the space, NEL (U+0085) and the no-break
    space (U+00A0). *)
Definition is_space (c : ascii) : bool :=
  (((9 <=? code c) && (code c <=? 13)) || ((28 <=? code c) && (code c <=? 32))
   || (code c =? 133) || (code c =? 160))%N.

Definition to_lower (c : ascii) : ascii :=
  if is_upper c then ascii_of_N (code c + 32) else c.

Definition lower (s : string) : string :=
  string_of_list_ascii (to_lower <$> list_ascii_of_string s).

(** The characters from the first one that [sp] rejects. *)
Fixpoint lstrip_by (sp : ascii → bool) (l : list ascii) : list ascii :=
  match l with
  | c :: l' => if sp c then lstrip_by sp l' else l
  | [] => []
  end.

Definition strip_by (sp : ascii → bool) (l : list ascii) : list ascii :=
  rev (lstrip_by sp (rev (lstrip_by sp l))).

(** [str.strip()] *)
Definition strip (s : string) : string :=
  string_of_list_ascii (strip_by is_space (list_ascii_of_string s)).

(** [str.isalpha]: non-empty and letters only. *)
Definition isalpha (s : string) : bool :=
  match list_ascii_of_string s with
  | [] => false
  | l => forallb is_alpha l
  end.

(** [message.text.lower().strip()] *)
Definition normalize (text : string) : string := strip (lower text).

(** *** [int(value)]

    [int] of a [str]: white space at both ends is skipped, a sign may
    come first, and then come decimal digits, any two of which may be
    separated by one underscore. [None] stands for [ValueError]. The
    white space of [int] is that of [str.isspace] without U+001C-U+001F;
    the only decimal digits below U+0100 are [0]-[9]. *)

Definition is_int_space (c : ascii) : bool :=
  (((9 <=? code c) && (code c <=? 13)) || (code c =? 32)
   || (code c =? 133) || (code c =? 160))%N.

(** The rest of a number after a digit; [acc] is the value read so far. *)
Fixpoint digits (l : list ascii) (acc : Z) : option Z :=
  match l with
  | [] => Some acc
  | c :: l' =>
      if decide (c = "_"%char) then
        match l' with
        | d :: l'' =>
            match Ascii.is_nat d with
            | Some n => digits l'' (10 * acc + Z.of_nat n)
            | None => None
            end
        | [] => None
        end
      else
        match Ascii.is_nat c with
        | Some n => digits l' (10 * acc + Z.of_nat n)
        | None => None
        end
  end.

(** A number: a digit, then [digits]. *)
Definition number (l : list ascii) : option Z :=
  match l with
  | c :: l' =>
      match Ascii.is_nat c with
      | Some n => digits l' (Z.of_nat n)
      | None => None
      end
  | [] => None
  end.

Definition int_of_string (s : string) : option Z :=
  match strip_by is_int_space (list_ascii_of_string s) with
  | [] => None
  | c :: l =>
      if decide (c = "-"%char) then Z.opp <$> number l
      else if decide (c = "+"%char) then number l
      else number (c :: l)
  end.

End Text.

(** ** Clock: the part of [datetime] that [update_score] looks at *)

Module Clock.

Record datetime := {
  year : Z;
  month : Z;
  day : Z;
  (** microseconds since midnight *)
  time_of_day : Z
}.

(** [dt.date()] *)
Definition date (dt : datetime) : Z * Z * Z := (year dt, month dt, day dt).

(** Days since 1970-01-01 in the proleptic Gregorian calendar. *)
Definition days_from_civil (y m d : Z) : Z :=
  let y' := if m <=? 2 then y - 1 else y in
  let era := y' / 400 in
  let yoe := y' - era * 400 in
  let mp := if 2 <? m then m - 3 else m + 9 in
  let doy := (153 * mp + 2) / 5 + d - 1 in
  let doe := yoe * 365 + yoe / 4 - yoe / 100 + doy in
  era * 146097 + doe - 719468.

(** ISO weekday, Monday = 1 ... Sunday = 7. *)
Definition isoweekday (y m d : Z) : Z := (days_from_civil y m d + 3) mod 7 + 1.

Definition weeks_in_year (y : Z) : Z :=
  let p := fun y => (y + y / 4 - y / 100 + y / 400) mod 7 in
  if decide (p y = 4 ∨ p (y - 1) = 3) then 53 else 52.

(** [dt.isocalendar().week] *)
Definition isoweek (dt : datetime) : Z :=
  let y := year dt in
  let ordinal := days_from_civil y (month dt) (day dt) - days_from_civil y 1 1 + 1 in
  let w := (ordinal - isoweekday y (month dt) (day dt) + 10) / 7 in
  if w <? 1 then weeks_in_year (y - 1)
  else if weeks_in_year y <? w then 1
  else w.

End Clock.

(** ** The document store

    One record per collection of [B.py], holding what MongoDB holds.
    Counters that the code reads with
    [.get(key, 0)] and writes with [$inc] are string-keyed maps, so that an
    absent field and a field created by [$inc] are both expressible. *)

Module Store.

(** A settings value: [update_settings] stores an [int] under the three
    numeric keys and the raw argument text under any other key. *)
Inductive sval := SInt (n : Z) | SStr (s : string).

Global Instance sval_eq_dec : EqDecision sval.
Proof. solve_decision. Defined.

Definition DEFAULT_SETTINGS : gmap string sval :=
  {[ "max_guesses" := SInt 30;
     "word_length" := SInt 5;
     "timeout" := SInt 3600;
     "theme" := SStr "default";
     "mode" := SStr "standard" ]}.

(** A Python collection of user ids: the [set] the code builds, or the
    [list] that pymongo decodes a BSON array to. *)
Inductive ids := PySet (s : gset Z) | PyList (l : list Z).

(** [v.add(x)]: a [list] has no [add]; [None] is the [AttributeError]. *)
Definition py_add (x : Z) (v : ids) : option ids :=
  match v with
  | PySet s => Some (PySet ({[x]} ∪ s))
  | PyList _ => None
  end.

(** [v.discard(x)]: a [list] has no [discard] either. *)
Definition py_discard (x : Z) (v : ids) : option ids :=
  match v with
  | PySet s => Some (PySet (s ∖ {[x]}))
  | PyList _ => None
  end.

(** What BSON makes of the collection: an array of a [list]; [None] is the
    [InvalidDocument] raised for a [set]. *)
Definition bson_ids (v : ids) : option (list Z) :=
  match v with
  | PyList l => Some l
  | PySet _ => None
  end.

(** The fields [new_game] gives a game document and [update_settings] does
    not, as the collection holds them: a document has all of them or
    none. *)
Record session := {
  word : string;
  guesses : list (Z * string);
  players : list Z;
  teams : gmap string (list Z);
  start_time : Z
}.

(** The same fields in the [dict] a handler works on. *)
Record py_session := {
  py_word : string;
  py_guesses : list (Z * string);
  py_players : ids;
  py_teams : gmap string ids;
  py_start_time : Z
}.

(** [find_one]: every array is read as a [list]. *)
Definition decode (s : session) : py_session :=
  {| py_word := word s; py_guesses := guesses s; py_players := PyList (players s);
     py_teams := PyList <$> teams s; py_start_time := start_time s |}.

(** The encoding [insert_one] and [update_one] apply to what they are
    given; [None] is [InvalidDocument]. *)
Definition encode (p : py_session) : option session :=
  players ← bson_ids (py_players p);
  if decide (map_Forall (fun _ v => is_Some (bson_ids v)) (py_teams p)) then
    Some {| word := py_word p; guesses := py_guesses p; players := players;
            teams := omap bson_ids (py_teams p); start_time := py_start_time p |}
  else None.

(** A document of [games_coll]. [live = None] is the document that the
    upsert of [update_settings] creates for a chat without a game: it has
    [chat_id] and [settings] only. [banned] is the array that
    [$addToSet] builds; an absent field reads as empty
    ([game.get("banned", set())]). *)
Record game_doc := {
  live : option session;
  settings : gmap string sval;
  banned : list Z
}.

(** A document of [stats_coll]: the numeric fields, and the [achievements]
    array (absent reads as empty). *)
Record stats_doc := {
  counters : gmap string Z;
  achievements : list string
}.

Definition no_stats : stats_doc := {| counters := ∅; achievements := [] |}.

(** A document of [scores_coll]:
    [{"scores": {"<chat_id>": {"today": n, ...}}, "global": {"today": n, ...},
      "teams": {"<team>": {"score": n}}}]. *)
Record score_doc := {
  scores : gmap string (gmap string Z);
  global : gmap string Z;
  team_scores : gmap string (gmap string Z)
}.

Definition no_scores : score_doc :=
  {| scores := ∅; global := ∅; team_scores := ∅ |}.

(** The single document of [bot_stats_coll]. *)
Record bot_stats := {
  bot_counters : gmap string Z;
  last_updated : option Z
}.

Record world := {
  games_coll : gmap Z game_doc;
  scores_coll : gmap Z score_doc;
  stats_coll : gmap Z stats_doc;
  bot_stats_coll : bot_stats;
  (** [users_coll]: player -> the [language] field of the document *)
  users_coll : gmap Z string;
  (** the rate limiter: player -> time its key was last set *)
  user_last_guess : gmap Z Z
}.

Definition empty_world : world :=
  {| games_coll := ∅; scores_coll := ∅; stats_coll := ∅;
     bot_stats_coll := {| bot_counters := ∅; last_updated := None |};
     users_coll := ∅; user_last_guess := ∅ |}.

Definition with_games (f : gmap Z game_doc → gmap Z game_doc) (w : world) : world :=
  {| games_coll := f (games_coll w); scores_coll := scores_coll w;
     stats_coll := stats_coll w; bot_stats_coll := bot_stats_coll w;
     users_coll := users_coll w; user_last_guess := user_last_guess w |}.

Definition with_scores (f : gmap Z score_doc → gmap Z score_doc) (w : world) : world :=
  {| games_coll := games_coll w; scores_coll := f (scores_coll w);
     stats_coll := stats_coll w; bot_stats_coll := bot_stats_coll w;
     users_coll := users_coll w; user_last_guess := user_last_guess w |}.

Definition with_stats (f : gmap Z stats_doc → gmap Z stats_doc) (w : world) : world :=
  {| games_coll := games_coll w; scores_coll := scores_coll w;
     stats_coll := f (stats_coll w); bot_stats_coll := bot_stats_coll w;
     users_coll := users_coll w; user_last_guess := user_last_guess w |}.

Definition with_bot_stats (f : bot_stats → bot_stats) (w : world) : world :=
  {| games_coll := games_coll w; scores_coll := scores_coll w;
     stats_coll := stats_coll w; bot_stats_coll := f (bot_stats_coll w);
     users_coll := users_coll w; user_last_guess := user_last_guess w |}.

Definition with_rate (f : gmap Z Z → gmap Z Z) (w : world) : world :=
  {| games_coll := games_coll w; scores_coll := scores_coll w;
     stats_coll := stats_coll w; bot_stats_coll := bot_stats_coll w;
     users_coll := users_coll w; user_last_guess := f (user_last_guess w) |}.

Definition with_users (f : gmap Z string → gmap Z string) (w : world) : world :=
  {| games_coll := games_coll w; scores_coll := scores_coll w;
     stats_coll := stats_coll w; bot_stats_coll := bot_stats_coll w;
     users_coll := f (users_coll w); user_last_guess := user_last_guess w |}.

(** [d.get(key, 0)] *)
Definition get0 (key : string) (d : gmap string Z) : Z := default 0 (d !! key).

(** [{"$inc": {key: n}}] on one level: an absent field starts from 0. *)
Definition inc (key : string) (n : Z) (d : gmap string Z) : gmap string Z :=
  <[key := get0 key d + n]> d.

(** [{"$inc": {"outer.key": n}}] below a sub-document, created when absent. *)
Definition inc_in (outer key : string) (n : Z)
    (d : gmap string (gmap string Z)) : gmap string (gmap string Z) :=
  <[outer := inc key n (default ∅ (d !! outer))]> d.

(** [{"$addToSet": {field: x}}] on an array. *)
Definition add_to_set (x : string) (l : list string) : list string :=
  if decide (x ∈ l) then l else l ++ [x].

(** [find_one({"user_id": u}) or {}] *)
Definition stats_of (w : world) (u : Z) : stats_doc :=
  default no_stats (stats_coll w !! u).

Definition scores_of (w : world) (u : Z) : score_doc :=
  default no_scores (scores_coll w !! u).

(** [stats_coll.update_one({"user_id": u}, update, upsert=True)] *)
Definition update_stats_doc (u : Z) (f : stats_doc → stats_doc) (w : world) : world :=
  with_stats (fun c => <[u := f (default no_stats (c !! u))]> c) w.

Definition update_score_doc (u : Z) (f : score_doc → score_doc) (w : world) : world :=
  with_scores (fun c => <[u := f (default no_scores (c !! u))]> c) w.

End Store.

(** ** ScoreLedger, achievements and leaderboard *)

Module Ledger.
Import Store Clock.

Definition one_if (b : bool) : Z := if b then 1 else 0.

(** [update_score(user_id, chat_id, mode, team)]. [clk k] is what the
    [k]-th evaluation of [datetime.now()] inside the call returns: [clk 0]
    is the variable [now], and the six comparisons of the [$inc] document
    read the clock again, in the order in which the dictionary is written. *)
Definition update_score (clk : nat → datetime) (user_id chat_id : Z)
    (mode : sval) (team : option string) (w : world) : world :=
  let now := clk 0%nat in
  let cid := pretty chat_id in
  let today1 := one_if (bool_decide (date now = date (clk 1%nat))) in
  let week1 := one_if (bool_decide (isoweek now = isoweek (clk 2%nat))) in
  let month1 := one_if (bool_decide (month now = month (clk 3%nat))) in
  let today2 := one_if (bool_decide (date now = date (clk 4%nat))) in
  let week2 := one_if (bool_decide (isoweek now = isoweek (clk 5%nat))) in
  let month2 := one_if (bool_decide (month now = month (clk 6%nat))) in
  let team_inc :=
    match team with
    | Some t => bool_decide (mode = SStr "team") && negb (bool_decide (t = ""))
    | None => false
    end in
  let w1 :=
    update_score_doc user_id (fun d =>
      {| scores :=
           inc_in cid "month" month1
             (inc_in cid "week" week1
               (inc_in cid "today" today1
                 (inc_in cid "all_time" 1 (scores d))));
         global :=
           inc "month" month2
             (inc "week" week2
               (inc "today" today2
                 (inc "all_time" 1 (global d))));
         team_scores :=
           if team_inc then inc_in (default "" team) "score" 1 (team_scores d)
           else team_scores d |}) w in
  update_stats_doc user_id (fun s =>
    {| counters := inc "wins" 1 (counters s);
       achievements := achievements s |}) w1.

(** [update_stats(user_id, guesses)]; [t] is the [time.time()] stored as
    [last_updated]. *)
Definition update_stats (t : Z) (user_id guesses : Z) (w : world) : world :=
  let w1 :=
    update_stats_doc user_id (fun s =>
      {| counters := inc "total_guesses" guesses (inc "games_played" 1 (counters s));
         achievements := achievements s |}) w in
  with_bot_stats (fun b =>
    {| bot_counters := inc "games_started" 0 (inc "guesses_made" guesses (bot_counters b));
       last_updated := Some t |}) w1.

Record achievement := {
  ach_id : string;
  ach_name : string;
  condition : gmap string Z → bool
}.

Definition ACHIEVEMENTS : list achievement :=
  [ {| ach_id := "first_win"; ach_name := "First Win";
       condition := fun stats => 1 <=? get0 "wins" stats |};
    {| ach_id := "ten_wins"; ach_name := "Deca-Winner";
       condition := fun stats => 10 <=? get0 "wins" stats |};
    {| ach_id := "hundred_guesses"; ach_name := "Guess Master";
       condition := fun stats => 100 <=? get0 "total_guesses" stats |} ].

(** The test of the loop body, on the snapshot read before the loop. *)
Definition newly_unlocked (user_stats : stats_doc) (ach : achievement) : bool :=
  condition ach (counters user_stats)
  && bool_decide (ach_id ach ∉ achievements user_stats).

Definition unlock (user_id : Z) (ach : achievement) (w : world) : world :=
  update_stats_doc user_id (fun s =>
    {| counters := counters s;
       achievements := add_to_set (ach_id ach) (achievements s) |}) w.

(** [for ach_id, ach in ACHIEVEMENTS.items(): ...] *)
Fixpoint check_loop (user_id : Z) (user_stats : stats_doc)
    (achs : list achievement) (unlocked : list string) (w : world)
    : list string * world :=
  match achs with
  | [] => (unlocked, w)
  | ach :: achs' =>
      if newly_unlocked user_stats ach
      then check_loop user_id user_stats achs' (unlocked ++ [ach_name ach])
             (unlock user_id ach w)
      else check_loop user_id user_stats achs' unlocked w
  end.

(** [check_achievements(user_id)] *)
Definition check_achievements (user_id : Z) (w : world) : list string * world :=
  check_loop user_id (stats_of w user_id) ACHIEVEMENTS [] w.

(** *** Leaderboard *)

(** What a two-component dotted path [scope.period] finds in a score
    document: a number, a sub-document, or nothing. Only [global] holds
    numbers at depth two; below [scores] and [teams] the second component
    is looked up among the chat ids (team names) and finds a sub-document
    or nothing. *)
Inductive field := FNum (n : Z) | FDoc | FMissing.

Definition path2 (scope period : string) (d : score_doc) : field :=
  if decide (scope = "global") then
    match global d !! period with Some n => FNum n | None => FMissing end
  else if decide (scope = "scores") then
    match scores d !! period with Some _ => FDoc | None => FMissing end
  else if decide (scope = "teams") then
    match team_scores d !! period with Some _ => FDoc | None => FMissing end
  else FMissing.

(** [{"$gt": 0}] and equality with an integer: a sub-document or a missing
    field satisfies neither. *)
Definition gt0 (f : field) : bool :=
  match f with FNum n => 0 <? n | _ => false end.

Definition eq_int (f : field) (n : Z) : bool :=
  match f with FNum m => bool_decide (m = n) | _ => false end.

Definition num (f : field) : Z :=
  match f with FNum n => n | _ => 0 end.

(** The [$match] stage. *)
Definition matches (scope : string) (chat_id : Z) (period : string)
    (d : score_doc) : bool :=
  gt0 (path2 scope period d)
  && (if decide (scope = "scores") then eq_int (path2 "scores" "chat_id" d) chat_id
      else true).

(** The [$sort] stage: descending on the count. *)
Definition count_ge (scope period : string) (a b : Z * score_doc) : Prop :=
  num (path2 scope period b.2) ≤ num (path2 scope period a.2).

Global Instance count_ge_dec scope period a b : Decision (count_ge scope period a b).
Proof. unfold count_ge. apply _. Defined.

Definition sort_desc (scope period : string)
    (rows : list (Z * score_doc)) : list (Z * score_doc) :=
  merge_sort (count_ge scope period) rows.

Record board := {
  (** rank, first name, count; empty is "No scores yet!" *)
  lines : list (Z * string * Z);
  has_prev : bool;
  has_next : bool
}.

(** [get_leaderboard(scope, chat_id, period, page, per_page)].
    [get_users uid = None] stands for [app.get_users] raising: the row is
    logged and left out. A negative [$skip] is refused by the store: the
    result is [None]. *)
Definition get_leaderboard (get_users : Z → option string) (scope : string)
    (chat_id : Z) (period : string) (page per_page : Z) (w : world)
    : option board :=
  let docs := map_to_list (scores_coll w) in
  let skip := (page - 1) * per_page in
  if skip <? 0 then None else
  let rows :=
    take (Z.to_nat per_page)
      (drop (Z.to_nat skip)
        (sort_desc scope period
          (filter (fun e => matches scope chat_id period e.2) docs))) in
  let leaderboard :=
    omap (fun e : Z * score_doc =>
            name ← get_users e.1; Some (name, num (path2 scope period e.2))) rows in
  let total := length (filter (fun e => gt0 (path2 scope period e.2)) docs) in
  Some {| lines := imap (fun i '(name, score) =>
                      (1 + (page - 1) * per_page + Z.of_nat i, name, score)) leaderboard;
          has_prev := 1 <? page;
          has_next := page * per_page <? Z.of_nat total |}.

(** A chat-scoped bucket and a global bucket of a player, as
    [myscore_command] reads them, and a numeric field of the player's
    stats, as [profile_command] reads it. *)
Definition chat_count (w : world) (u chat_id : Z) (period : string) : Z :=
  get0 period (default ∅ (scores (scores_of w u) !! pretty chat_id)).

Definition global_count (w : world) (u : Z) (period : string) : Z :=
  get0 period (global (scores_of w u)).

Definition stat (w : world) (u : Z) (key : string) : Z :=
  get0 key (counters (stats_of w u)).

(** What [profile_command] shows. The average is kept as the exact
    quotient [total_guesses / games_played] (numerator, denominator);
    [None] is the literal [0] of the [else] branch. *)
Record profile := {
  games_played : Z;
  wins : Z;
  avg_guesses : option (Z * Z);
  n_achievements : nat
}.

Definition profile_command (user_id : Z) (w : world) : profile :=
  let user_stats := stats_of w user_id in
  let games_played := get0 "games_played" (counters user_stats) in
  let total_guesses := get0 "total_guesses" (counters user_stats) in
  {| games_played := games_played;
     wins := get0 "wins" (counters user_stats);
     avg_guesses := if 0 <? games_played then Some (total_guesses, games_played) else None;
     n_achievements := length (achievements user_stats) |}.

End Ledger.

(** ** GameSession and SessionRegistry: the command handlers *)

Module Bot.
Import Store Clock Ledger.

(** The exceptions that leave a handler: Python's own, [InvalidDocument]
    of the BSON encoder, [OperationalError] of SQLite, and [RPCError] for
    whatever [client.get_users] raises. *)
Inductive exn :=
| KeyError | IndexError | TypeError | AttributeError
| InvalidDocument | OperationalError | RPCError.

(** What a handler answers. [Raised e] is an exception that leaves the
    handler before the guess is written to the game document,
    [RaisedAfterRecord e] one that leaves it after the guess and the
    player's stats were written. [NoReply] is the silent [return]. The
    constructors name the message; its text is not part of the engine. *)
Inductive reply :=
| SlowDown
| NoReply
| YouAreBanned
| InvalidGuess (length : sval)
| NotValidWord
| Win (word : string) (unlocked : list string)
| GameOver (word : string)
| GuessesLeft (guess : string) (hint : list Hint.mark) (left : Z)
| InvalidMode
| GameInProgress
| NewGame (length : sval)
| AdminOnly
| NoGame
| GameEnded (word : string)
| Usage
| InvalidSetting
| SettingsUpdated (settings : gmap string sval)
| UserBanned
| UserKicked
| InvalidUserId
| AvailableLanguages
| LanguageSet (lang : string)
| Raised (e : exn)
| RaisedAfterRecord (e : exn).

Definition RATE_LIMIT : Z := 2.

(** What the process is started with: the word list fetched at import, and
    the user directory behind [client.get_users] ([None]: the call raises). *)
Record config := {
  WORDS : list string;
  get_users : Z → option string
}.

(** The clock readings of one [handle_guess] call: [time.time()] at the
    rate limiter, [time.time()] inside [update_stats], and the successive
    [datetime.now()] of [update_score]. *)
Record readings := {
  time_now : Z;
  time_stats : Z;
  datetime_now : nat → datetime
}.

(** *** Languages *)

(** The keys of [LANGUAGES]. The table of ["en"] has every message; the
    table of ["es"] is empty. [handle_guess] is given its sender and
    looks the language up; the command handlers below are given no
    sender, and what they answer is what a sender whose language is
    ["en"], the default, is answered. *)
Definition LANGUAGES : list string := ["en"; "es"].

(** [get_user_language] *)
Definition get_user_language (w : world) (user_id : Z) : string :=
  default "en" (users_coll w !! user_id).

(** [LANGUAGES[lang][key]] for the message of [r], before the guess is
    recorded and after it: a [KeyError] for every language but ["en"]. *)
Definition say (lang : string) (r : reply) : reply :=
  if bool_decide (lang = "en") then r else Raised KeyError.

Definition say_after (lang : string) (r : reply) : reply :=
  if bool_decide (lang = "en") then r else RaisedAfterRecord KeyError.

(** [language_command] *)
Definition language_command (user_id : Z) (args : list string) (w : world)
    : reply * world :=
  match args with
  | [] => (AvailableLanguages, w)
  | lang :: _ =>
      if bool_decide (lang ∉ LANGUAGES) then (AvailableLanguages, w)
      else (LanguageSet lang, with_users (insert user_id lang) w)
  end.

(** *** Word source *)

Definition fallback_words : list string :=
  ["apple"; "brave"; "cloud"; "dream"; "eagle"; "flame"; "grape"; "house";
   "jolly"; "knife"].

(** [fetch_words(length)]: [response] is the list of ["word"] fields of
    the reply, [None] when the request or its decoding raises. *)
Definition fetch_words (length : Z) (response : option (list string)) : list string :=
  match response with
  | Some entries =>
      Text.lower <$>
        filter (fun w => Z.of_nat (String.length w) = length ∧ Text.isalpha w) entries
  | None => fallback_words
  end.

(** [random.choice(seq)] with the random draw [r]; [None] is the
    [IndexError] it raises on an empty sequence. *)
Definition choice {A} (r : nat) (seq : list A) : option A :=
  match seq with
  | [] => None
  | _ => seq !! (r mod length seq)%nat
  end.

(** *** /new *)

(** [new_game], up to the reply. The [dict] it builds holds three Python
    sets ([players], [banned], and the teams in team mode), so
    [insert_one] raises [InvalidDocument]; the lines after it are the
    [Some] branch. *)
Definition new_game (response : option (list string)) (r : nat) (now : Z)
    (chat_id : Z) (args : list string) (w : world) : reply * world :=
  let mode := match args with m :: _ => m | [] => "standard" end in
  if bool_decide (mode ∉ ["standard"; "team"; "competitive"]) then (InvalidMode, w)
  else
    match games_coll w !! chat_id with
    | Some _ => (GameInProgress, w)
    | None =>
        let settings := <["mode" := SStr mode]> DEFAULT_SETTINGS in
        match settings !! "word_length" with
        | Some (SInt n) =>
            match choice r (fetch_words n response) with
            | None => (Raised IndexError, w)
            | Some word =>
                let game :=
                  {| py_word := word;
                     py_guesses := [];
                     py_players := PySet ∅;
                     py_teams := if bool_decide (mode = "team")
                                 then {[ "team1" := PySet ∅; "team2" := PySet ∅ ]}
                                 else ∅;
                     py_start_time := now |} in
                let banned := PySet ∅ in
                (** [games_coll.insert_one(game)] *)
                match encode game, bson_ids banned with
                | Some s, Some b =>
                    let w1 := with_games (insert chat_id
                                {| live := Some s; settings := settings;
                                   banned := b |}) w in
                    let w2 := with_bot_stats (fun b =>
                                {| bot_counters := inc "games_started" 1 (bot_counters b);
                                   last_updated := last_updated b |}) w1 in
                    (NewGame (SInt n), w2)
                | _, _ => (Raised InvalidDocument, w)
                end
            end
        | _ => (Raised KeyError, w)
        end
    end.

(** *** /end *)

Definition end_game (chat_id : Z) (admin : bool) (w : world) : reply * world :=
  if negb admin then (AdminOnly, w)
  else
    match games_coll w !! chat_id with
    | None => (NoGame, w)
    | Some game =>
        let w1 := with_games (delete chat_id) w in
        match live game with
        | Some s => (GameEnded (word s), w1)
        | None => (Raised KeyError, w1)
        end
    end.

(** *** /settings *)

(** The [try] block: the value to store, or [None] for [ValueError]. *)
Definition validate_setting (key value : string) : option sval :=
  if bool_decide (key ∈ ["max_guesses"; "length"; "timeout"]) then
    match Text.int_of_string value with
    | Some n => if n <=? 0 then None else Some (SInt n)
    | None => None
    end
  else if bool_decide (key = "theme")
          && bool_decide (value ∉ ["default"; "dark"; "light"]) then None
  else Some (SStr value).

Definition update_settings (chat_id : Z) (admin : bool) (args : list string)
    (w : world) : reply * world :=
  if negb admin then (AdminOnly, w)
  else
    match args with
    | [key; value] =>
        match validate_setting key value with
        | None => (InvalidSetting, w)
        | Some v =>
            let game := games_coll w !! chat_id in
            let settings :=
              <[key := v]> (match game with
                            | Some g => settings g
                            | None => DEFAULT_SETTINGS
                            end) in
            (** [update_one(..., {"$set": {"settings": settings}}, upsert=True)] *)
            let doc :=
              match game with
              | Some g => {| live := live g; settings := settings; banned := banned g |}
              | None => {| live := None; settings := settings; banned := [] |}
              end in
            (SettingsUpdated settings, with_games (insert chat_id doc) w)
        end
    | _ => (Usage, w)
    end.

(** *** /ban and /kick *)

(** [ban_user]: [$addToSet] on the [banned] array of the chat's document,
    if there is one. *)
Definition ban_user (cfg : config) (chat_id : Z) (admin : bool)
    (args : list string) (w : world) : reply * world :=
  if negb admin then (AdminOnly, w)
  else
    match args with
    | [] => (Usage, w)
    | a :: _ =>
        match Text.int_of_string a ≫= fun target_id =>
              get_users cfg target_id ≫= fun _ => Some target_id with
        | None => (InvalidUserId, w)
        | Some target_id =>
            (UserBanned,
             with_games (alter (fun g =>
               {| live := live g; settings := settings g;
                  banned := if decide (target_id ∈ banned g) then banned g
                            else banned g ++ [target_id] |}) chat_id) w)
        end
    end.

(** [kick_user]: [game["players"].discard(target_id)] is inside the [try],
    so the [KeyError] of a document without players and the
    [AttributeError] of the list are both answered "Invalid user ID!". *)
Definition kick_user (cfg : config) (chat_id : Z) (admin : bool)
    (args : list string) (w : world) : reply * world :=
  if negb admin then (AdminOnly, w)
  else
    match args with
    | [] => (Usage, w)
    | a :: _ =>
        match Text.int_of_string a ≫= fun target_id =>
              get_users cfg target_id ≫= fun _ => Some target_id with
        | None => (InvalidUserId, w)
        | Some target_id =>
            match games_coll w !! chat_id with
            | None => (UserKicked, w)
            | Some g =>
                match live g with
                | None => (InvalidUserId, w)
                | Some s =>
                    match py_discard target_id (py_players (decode s))
                          ≫= bson_ids with
                    | None => (InvalidUserId, w)
                    | Some players' =>
                        let s' := {| word := word s; guesses := guesses s;
                                     players := players';
                                     teams := teams s; start_time := start_time s |} in
                        (UserKicked,
                         with_games (insert chat_id
                           {| live := Some s'; settings := settings g;
                              banned := banned g |}) w)
                    end
                end
            end
        end
    end.

(** *** Guesses *)

(** The cooldown test, the same in the keyed store (the key set at time
    [last] with a lifetime of [RATE_LIMIT] still exists) and in the
    in-process map. *)
Definition rate_limited (w : world) (user_id now : Z) : bool :=
  match user_last_guess w !! user_id with
  | Some last => now - last <? RATE_LIMIT
  | None => false
  end.

(** [len(guess) != settings["word_length"]]: an [int] never equals a [str]. *)
Definition length_differs (guess : string) (word_length : sval) : bool :=
  match word_length with
  | SInt n => negb (bool_decide (Z.of_nat (String.length guess) = n))
  | SStr _ => true
  end.

(** The team of the next guess: parity of the guesses made so far. *)
Definition next_team (s : py_session) : string :=
  if Nat.even (length (py_guesses s)) then "team1" else "team2".

Definition set_live (g : game_doc) (s : session) : game_doc :=
  {| live := Some s; settings := settings g; banned := banned g |}.

(** The tail of [handle_guess], from [hint = get_hint(...)] on: the guess
    is in the log of [s] and the stats are written. *)
Definition resolve (cfg : config) (env : readings) (chat_id user_id : Z)
    (lang guess : string) (settings : gmap string sval) (mode : sval)
    (team : option string) (s : py_session) (w : world) : reply * world :=
  match Hint.get_hint guess (py_word s) with
  | None => (RaisedAfterRecord IndexError, w)
  | Some hint =>
      if bool_decide (guess = py_word s) then
        let w1 := update_score (datetime_now env) user_id chat_id mode team w in
        let '(unlocked, w2) := check_achievements user_id w1 in
        let w3 := with_games (delete chat_id) w2 in
        match get_users cfg user_id with
        | None => (RaisedAfterRecord RPCError, w3)
        | Some _ => (say_after lang (Win (py_word s) unlocked), w3)
        end
      else
        match settings !! "max_guesses" with
        | None => (RaisedAfterRecord KeyError, w)
        | Some (SStr _) => (RaisedAfterRecord TypeError, w)
        | Some (SInt max_guesses) =>
            if max_guesses <=? Z.of_nat (length (py_guesses s))
            then (say_after lang (GameOver (py_word s)),
                  with_games (delete chat_id) w)
            else (say_after lang
                    (GuessesLeft guess hint
                       (max_guesses - Z.of_nat (length (py_guesses s)))), w)
        end
  end.

(** The middle of [handle_guess]: team assignment, the append to the log,
    [players.add], the write back and [update_stats]. The document was
    read by [find_one], so [players] and each team are lists. *)
Definition record (cfg : config) (env : readings) (chat_id user_id : Z)
    (lang guess : string) (game : game_doc) (mode : sval) (w : world)
    : reply * world :=
  match live game with
  | None => (Raised KeyError, w)
  | Some stored =>
      let s := decode stored in
      let assigned : exn + (option string * gmap string ids) :=
        if bool_decide (mode = SStr "team") then
          match py_teams s !! next_team s with
          | None => inl KeyError
          | Some members =>
              match py_add user_id members with
              | None => inl AttributeError
              | Some members' =>
                  inr (Some (next_team s), <[next_team s := members']> (py_teams s))
              end
          end
        else inr (None, py_teams s) in
      match assigned with
      | inl e => (Raised e, w)
      | inr (team, teams') =>
          match py_add user_id (py_players s) with
          | None => (Raised AttributeError, w)
          | Some players' =>
              let s' := {| py_word := py_word s;
                           py_guesses := py_guesses s ++ [(user_id, guess)];
                           py_players := players';
                           py_teams := teams';
                           py_start_time := py_start_time s |} in
              (** [update_one(..., {"$set": {"guesses": ..., "players": ...,
                  "teams": ...}})] *)
              match encode s' with
              | None => (Raised InvalidDocument, w)
              | Some stored' =>
                  let w1 := with_games (insert chat_id (set_live game stored')) w in
                  let w2 := update_stats (time_stats env) user_id 1 w1 in
                  resolve cfg env chat_id user_id lang guess (settings game) mode
                    team s' w2
              end
          end
      end
  end.

(** [handle_guess]: the handler of every text message that is not a
    command. *)
Definition handle_guess (cfg : config) (env : readings) (chat_id user_id : Z)
    (text : string) (w : world) : reply * world :=
  let lang := get_user_language w user_id in
  let guess := Text.normalize text in
  if rate_limited w user_id (time_now env) then (SlowDown, w)
  else
    let w1 := with_rate (insert user_id (time_now env)) w in
    match games_coll w1 !! chat_id with
    | None => (NoReply, w1)
    | Some game =>
        if bool_decide (user_id ∈ banned game) then (YouAreBanned, w1)
        else
          match settings game !! "word_length" with
          | None => (Raised KeyError, w1)
          | Some word_length =>
              if length_differs guess word_length || negb (Text.isalpha guess)
              then (say lang (InvalidGuess word_length), w1)
              else if bool_decide (guess ∉ WORDS cfg) then (say lang NotValidWord, w1)
              else
                match settings game !! "mode" with
                | None => (Raised KeyError, w1)
                | Some mode => record cfg env chat_id user_id lang guess game mode w1
                end
          end
    end.

(** The five checks a guess goes through before it is recorded, in the
    words of the specification: the rate limit, the ban list, the length,
    the alphabet and the dictionary. *)
Definition passes_checks (cfg : config) (env : readings) (chat_id user_id : Z)
    (text : string) (w : world) : bool :=
  negb (rate_limited w user_id (time_now env))
  && match games_coll w !! chat_id with
     | None => false
     | Some game =>
         negb (bool_decide (user_id ∈ banned game))
         && match settings game !! "word_length" with
            | None => false
            | Some word_length =>
                negb (length_differs (Text.normalize text) word_length)
            end
         && Text.isalpha (Text.normalize text)
         && bool_decide (Text.normalize text ∈ WORDS cfg)
     end.

(** *** Events *)

(** What reaches the bot. There is no timeout event: a timer is created
    by [new_game] after [insert_one] has returned. *)
Inductive event :=
| ENew (chat_id : Z) (args : list string) (response : option (list string))
       (r : nat) (now : Z)
| EEnd (chat_id : Z) (admin : bool)
| ESettings (chat_id : Z) (admin : bool) (args : list string)
| EBan (chat_id : Z) (admin : bool) (args : list string)
| EKick (chat_id : Z) (admin : bool) (args : list string)
| EGuess (chat_id user_id : Z) (text : string) (env : readings)
| ELanguage (user_id : Z) (args : list string).

Definition step (cfg : config) (ev : event) (w : world) : reply * world :=
  match ev with
  | ENew chat_id args response r now => new_game response r now chat_id args w
  | EEnd chat_id admin => end_game chat_id admin w
  | ESettings chat_id admin args => update_settings chat_id admin args w
  | EBan chat_id admin args => ban_user cfg chat_id admin args w
  | EKick chat_id admin args => kick_user cfg chat_id admin args w
  | EGuess chat_id user_id text env => handle_guess cfg env chat_id user_id text w
  | ELanguage user_id args => language_command user_id args w
  end.

(** Events handled one after the other; the replies in order. *)
Fixpoint run (cfg : config) (evs : list event) (w : world) : list reply * world :=
  match evs with
  | [] => ([], w)
  | ev :: evs' =>
      let '(r, w1) := step cfg ev w in
      let '(rs, w2) := run cfg evs' w1 in
      (r :: rs, w2)
  end.

(** A reply that answers a guess written to the log. *)
Definition recorded (r : reply) : bool :=
  match r with
  | Win _ _ | GameOver _ | GuessesLeft _ _ _ | RaisedAfterRecord _ => true
  | _ => false
  end.

(** [isWin] of the outcome. *)
Definition is_win (r : reply) : bool :=
  match r with Win _ _ => true | _ => false end.


(** A [GuessOutcome]: the guess was accepted and answered. *)
Definition is_outcome (r : reply) : bool :=
  match r with
  | Win _ _ | GameOver _ | GuessesLeft _ _ _ => true
  | _ => false
  end.


End Bot.

(** ** The SQLite variant ([wordseek.py]), where it differs

    The variant keeps one row per chat in [games], one row per
    (player, chat) in [scores], one row per player in [stats] and no global
    counters; its settings hold integers only, and every sender's language
    is ["en"]. The column [last_updated] of [bot_stats] is written and
    never read; it is not kept. *)

Module WordSeek.
Import Bot.

Definition DEFAULT_SETTINGS : gmap string Z :=
  {[ "max_guesses" := 30; "word_length" := 5; "timeout" := 3600 ]}.

(** A row of [games]: the columns [guesses], [players] and [settings]
    hold the [str] of a list, a set and a dict, read back with [eval]. *)
Record game_row := {
  word : string;
  guesses : list (Z * string);
  players : gset Z;
  start_time : Z;
  settings : gmap string Z
}.

(** The four counter columns of a [scores] row, [DEFAULT 0]. *)
Record score_row := {
  today : Z;
  week : Z;
  month : Z;
  all_time : Z
}.

(** The three counter columns of a [stats] row, [DEFAULT 0]. *)
Record stats_row := {
  games_played : Z;
  wins : Z;
  total_guesses : Z
}.

Definition no_stats_row : stats_row :=
  {| games_played := 0; wins := 0; total_guesses := 0 |}.

Record db := {
  games : gmap Z game_row;
  scores : gmap (Z * Z) score_row;
  stats : gmap Z stats_row;
  (** the row of [bot_stats] *)
  games_started : Z;
  guesses_made : Z;
  (** the in-process map [user_last_guess] *)
  last_guess : gmap Z Z
}.

Definition empty_db : db :=
  {| games := ∅; scores := ∅; stats := ∅; games_started := 0; guesses_made := 0;
     last_guess := ∅ |}.

Definition with_games (f : gmap Z game_row → gmap Z game_row) (d : db) : db :=
  {| games := f (games d); scores := scores d; stats := stats d;
     games_started := games_started d; guesses_made := guesses_made d;
     last_guess := last_guess d |}.

(** [new_game]: the word is drawn from the list loaded at start-up. *)
Definition new_game (WORDS : list string) (r : nat) (now : Z) (chat_id : Z)
    (d : db) : reply * db :=
  match games d !! chat_id with
  | Some _ => (GameInProgress, d)
  | None =>
      match choice r WORDS with
      | None => (Raised IndexError, d)
      | Some word =>
          (NewGame (Store.SInt 5),
           {| games := <[chat_id :=
                {| word := word; guesses := []; players := ∅; start_time := now;
                   settings := DEFAULT_SETTINGS |}]> (games d);
              scores := scores d; stats := stats d;
              games_started := games_started d + 1;
              guesses_made := guesses_made d;
              last_guess := last_guess d |})
      end
  end.

(** [update_settings]: the [UPDATE ... WHERE chat_id = ?] changes the row
    of a running game and inserts nothing. *)
Definition update_settings (chat_id : Z) (admin : bool) (args : list string)
    (d : db) : reply * db :=
  if negb admin then (AdminOnly, d)
  else
    match args with
    | [key; value] =>
        match Text.int_of_string value with
        | Some v =>
            if bool_decide (key ∉ ["max_guesses"; "length"; "timeout"]) || (v <=? 0)
            then (InvalidSetting, d)
            else
              let settings :=
                <[key := v]> (match games d !! chat_id with
                              | Some g => settings g
                              | None => DEFAULT_SETTINGS
                              end) in
              (SettingsUpdated (Store.SInt <$> settings),
               with_games (alter (fun g =>
                    {| word := word g; guesses := guesses g; players := players g;
                       start_time := start_time g; settings := settings |})
                    chat_id) d)
        | None => (InvalidSetting, d)
        end
    | _ => (Usage, d)
    end.

(** [update_score], on a connection of its own: one [UPDATE] statement, in
    which every ['now'] is the same instant, so each [CASE] adds one. The
    [stats] row is updated where it exists. *)
Definition update_score (user_id chat_id : Z) (d : db) : db :=
  let old := default {| today := 0; week := 0; month := 0; all_time := 0 |}
                     (scores d !! (user_id, chat_id)) in
  {| games := games d;
     scores := <[(user_id, chat_id) :=
                  {| today := today old + 1; week := week old + 1;
                     month := month old + 1; all_time := all_time old + 1 |}]>
               (scores d);
     stats := alter (fun row =>
                {| games_played := games_played row; wins := wins row + 1;
                   total_guesses := total_guesses row |}) user_id (stats d);
     games_started := games_started d;
     guesses_made := guesses_made d;
     last_guess := last_guess d |}.

(** [update_stats], on a connection of its own. [locked]: another
    connection has an uncommitted write; the first statement then waits
    for the lock until it times out and raises [OperationalError]
    ([None]). *)
Definition update_stats (locked : bool) (user_id guesses : Z) (d : db) : option db :=
  if locked then None
  else
    let old := default no_stats_row (stats d !! user_id) in
    Some {| games := games d; scores := scores d;
            stats := <[user_id :=
                        {| games_played := games_played old + 1; wins := wins old;
                           total_guesses := total_guesses old + guesses |}]>
                     (stats d);
            games_started := games_started d;
            guesses_made := guesses_made d + guesses;
            last_guess := last_guess d |}.

(** [handle_guess]. The [UPDATE games] that appends the guess runs on the
    handler's connection and is not committed when [update_stats] is
    called; when [update_stats] raises, the connection is dropped with the
    handler's frame and the update is rolled back. *)
Definition handle_guess (cfg : config) (env : readings) (chat_id user_id : Z)
    (text : string) (d : db) : reply * db :=
  let guess := Text.normalize text in
  if match last_guess d !! user_id with
     | Some last => time_now env - last <? RATE_LIMIT
     | None => false
     end
  then (SlowDown, d)
  else
    let d1 := {| games := games d; scores := scores d; stats := stats d;
                 games_started := games_started d;
                 guesses_made := guesses_made d;
                 last_guess := <[user_id := time_now env]> (last_guess d) |} in
    match games d1 !! chat_id with
    | None => (NoReply, d1)
    | Some row =>
        match settings row !! "word_length" with
        | None => (Raised KeyError, d1)
        | Some word_length =>
            if negb (bool_decide (Z.of_nat (String.length guess) = word_length))
               || negb (Text.isalpha guess)
            then (InvalidGuess (Store.SInt word_length), d1)
            else if bool_decide (guess ∉ WORDS cfg) then (NotValidWord, d1)
            else
              let row' := {| word := word row;
                             guesses := guesses row ++ [(user_id, guess)];
                             players := {[user_id]} ∪ players row;
                             start_time := start_time row;
                             settings := settings row |} in
              (** [c.execute("UPDATE games ...")] is pending *)
              match update_stats true user_id 1 d1 with
              | None => (Raised OperationalError, d1)
              | Some d2 =>
                  (** [conn.commit()] *)
                  let d3 := with_games (insert chat_id row') d2 in
                  match Hint.get_hint guess (word row) with
                  | None => (RaisedAfterRecord IndexError, d3)
                  | Some hint =>
                      if bool_decide (guess = word row) then
                        let d4 := with_games (delete chat_id)
                                    (update_score user_id chat_id d3) in
                        match get_users cfg user_id with
                        | None => (RaisedAfterRecord RPCError, d4)
                        | Some _ => (Win (word row) [], d4)
                        end
                      else
                        match settings row !! "max_guesses" with
                        | None => (RaisedAfterRecord KeyError, d3)
                        | Some max_guesses =>
                            if max_guesses <=? Z.of_nat (length (guesses row'))
                            then (GameOver (word row), with_games (delete chat_id) d3)
                            else (GuessesLeft guess hint
                                    (max_guesses - Z.of_nat (length (guesses row'))),
                                  d3)
                        end
                  end
              end
        end
    end.

(** The checks of the variant's [handle_guess]: the rate limit, the
    length, the alphabet and the dictionary (it has no ban list). *)
Definition passes_checks (cfg : config) (env : readings) (chat_id user_id : Z)
    (text : string) (d : db) : bool :=
  negb match last_guess d !! user_id with
       | Some last => time_now env - last <? RATE_LIMIT
       | None => false
       end
  && match games d !! chat_id with
     | None => false
     | Some row =>
         match settings row !! "word_length" with
         | None => false
         | Some word_length =>
             bool_decide (Z.of_nat (String.length (Text.normalize text))
                          = word_length)
         end
         && Text.isalpha (Text.normalize text)
         && bool_decide (Text.normalize text ∈ WORDS cfg)
     end.

(** The column named [period]; [None] for a name that is no column. *)
Definition column (period : string) (row : score_row) : option Z :=
  if decide (period = "today") then Some (today row)
  else if decide (period = "week") then Some (week row)
  else if decide (period = "month") then Some (month row)
  else if decide (period = "all_time") then Some (all_time row)
  else None.

Definition col (period : string) (e : Z * Z * score_row) : Z :=
  default 0 (column period e.2).

Definition col_ge (period : string) (a b : Z * Z * score_row) : Prop :=
  col period b ≤ col period a.

Global Instance col_ge_dec period a b : Decision (col_ge period a b).
Proof. unfold col_ge. apply _. Defined.

(** [get_leaderboard]: [Next] is offered when the page is full. *)
Definition get_leaderboard (get_users : Z → option string) (scope : string)
    (chat_id : Z) (period : string) (page per_page : Z) (d : db)
    : option Ledger.board :=
  if bool_decide (period ∈ ["today"; "week"; "month"; "all_time"]) then
    let selected :=
      filter (fun e : Z * Z * score_row =>
                0 < col period e
                ∧ (scope = "group" → e.1.2 = chat_id))
             (map_to_list (scores d)) in
    let rows :=
      take (Z.to_nat per_page)
        (drop (Z.to_nat ((page - 1) * per_page))
          (merge_sort (col_ge period) selected)) in
    let leaderboard :=
      omap (fun e : Z * Z * score_row =>
              name ← get_users e.1.1; Some (name, col period e)) rows in
    let total := length leaderboard in
    Some {| Ledger.lines :=
              imap (fun i '(name, score) =>
                      (1 + (page - 1) * per_page + Z.of_nat i, name, score))
                   leaderboard;
            Ledger.has_prev := 1 <? page;
            Ledger.has_next := bool_decide (Z.of_nat total = per_page) |}
  else None.

End WordSeek.

(** ** The commands that read the store *)

Module Commands.
Import Store Clock Ledger Bot.

(** The position-wise reading of a hint: the letter is at its place, is
    elsewhere in the target, or is not in the target. *)
Definition classify (target : list ascii) (i : nat) (c : ascii) : Hint.mark :=
  if decide (target !! i = Some c) then Hint.Correct
  else if decide (c ∈ target) then Hint.Present
  else Hint.Absent.

Definition PERIODS : list string := ["today"; "week"; "month"; "all_time"].


(** What a leaderboard handler shows: the scope and the period named in
    the heading of the message, and the board. *)
Inductive shown :=
| ShowUsage
| ShowBoard (scope period : string) (b : board)
| ShowRaised
| ShowValueError.

(** [leaderboard_command] of [B.py]. *)
Definition leaderboard_command (cfg : config) (chat_id : Z) (args : list string)
    (w : world) : shown :=
  let scope := match args with a :: _ => a | [] => "scores" end in
  let period := match args with _ :: p :: _ => p | _ => "all_time" end in
  if bool_decide (scope ∉ ["scores"; "global"]) || bool_decide (period ∉ PERIODS)
  then ShowUsage
  else
    let asked := if bool_decide (scope = "group") then "scores" else "global" in
    match get_leaderboard (get_users cfg) asked chat_id period 1 5 w with
    | Some b => ShowBoard scope period b
    | None => ShowRaised
    end.

(** [str.split(sep)] for a one-character separator. *)
Fixpoint split_on (sep : ascii) (l : list ascii) : list (list ascii) :=
  match l with
  | [] => [[]]
  | c :: l' =>
      if decide (c = sep) then [] :: split_on sep l'
      else
        match split_on sep l' with
        | field :: fields => (c :: field) :: fields
        | [] => [[c]]
        end
  end.

(** The [callback_data] of a pagination button:
    [f"leaderboard_{scope}_{period}_{page}"]. *)
Definition callback_data (scope period : string) (page : Z) : list ascii :=
  list_ascii_of_string "leaderboard_" ++ list_ascii_of_string scope
  ++ list_ascii_of_string "_" ++ list_ascii_of_string period
  ++ list_ascii_of_string "_" ++ list_ascii_of_string (pretty page).

(** The buttons [get_leaderboard] attaches to a page. *)
Definition buttons (scope period : string) (page : Z) (b : board) : list (list ascii) :=
  (if has_prev b then [callback_data scope period (page - 1)] else [])
  ++ (if has_next b then [callback_data scope period (page + 1)] else []).

(** [leaderboard_pagination]: the data is split at the underscores, the
    first field dropped, and the rest must be exactly scope, period and
    page. *)
Definition leaderboard_pagination (cfg : config) (chat_id : Z)
    (data : list ascii) (w : world) : shown :=
  match tail (split_on "_"%char data) with
  | [scope; period; page] =>
      match Text.int_of_string (string_of_list_ascii page) with
      | None => ShowValueError
      | Some page =>
          match get_leaderboard (get_users cfg) (string_of_list_ascii scope)
                  chat_id (string_of_list_ascii period) page 5 w with
          | Some b =>
              ShowBoard (string_of_list_ascii scope) (string_of_list_ascii period) b
          | None => ShowRaised
          end
      end
  | _ => ShowValueError
  end.






(** The chat an event is addressed to; [/language] addresses none. *)
Definition chat_of (ev : event) : option Z :=
  match ev with
  | ENew c _ _ _ _ | EEnd c _ | ESettings c _ _ | EBan c _ _ | EKick c _ _
  | EGuess c _ _ _ => Some c
  | ELanguage _ _ => None
  end.

End Commands.

(** ** What every reachable store satisfies *)

Module Inv.
Import Store Clock Ledger Bot.

(** Settings as the handlers leave them: [max_guesses] is a positive
    integer, [word_length] is the integer 5 or some text, [mode] is text. *)
Definition settings_ok (st : gmap string sval) : Prop :=
  (∃ n, st !! "max_guesses" = Some (SInt n) ∧ 0 < n)
  ∧ (st !! "word_length" = Some (SInt 5) ∨ ∃ s, st !! "word_length" = Some (SStr s))
  ∧ (∃ m, st !! "mode" = Some (SStr m)).

(** A document as the handlers leave it: settings, a ban list without
    duplicates, and no session. *)
Definition game_ok (g : game_doc) : Prop :=
  settings_ok (settings g) ∧ live g = None ∧ NoDup (banned g).

Definition games_ok (w : world) : Prop :=
  ∀ c g, games_coll w !! c = Some g → game_ok g.


End Inv.

(** ** The rest of the SQLite variant *)

Module WordSeekCommands.
Import Bot.

(** [load_words]: [file] is the lines of [words.txt], [None] when the
    file is missing. *)
Definition load_words (file : option (list string)) : list string :=
  match file with
  | Some lines =>
      (fun line => Text.lower (Text.strip line)) <$>
        filter (fun line => String.length (Text.strip line) = 5%nat
                            ∧ Text.isalpha (Text.strip line)) lines
  | None => fallback_words
  end.

(** [leaderboard_command] of the variant: [None] is the usage line. *)
Definition leaderboard_command (get_users : Z → option string) (chat_id : Z)
    (args : list string) (d : WordSeek.db) : option (option Ledger.board) :=
  let scope := match args with a :: _ => a | [] => "group" end in
  let period := match args with _ :: p :: _ => p | _ => "all" end in
  if bool_decide (scope ∉ ["group"; "global"])
     || bool_decide (period ∉ ["today"; "week"; "month"; "all_time"])
  then None
  else Some (WordSeek.get_leaderboard get_users scope chat_id period 1 5 d).

(** The group branch of [myscore_command] of the variant: the column of
    the (player, chat) row, 0 when there is no row. *)
Definition myscore_group (user_id chat_id : Z) (period : string)
    (d : WordSeek.db) : option Z :=
  match WordSeek.scores d !! (user_id, chat_id) with
  | Some row => WordSeek.column period row
  | None => Some 0
  end.

End WordSeekCommands.

(** ** Concrete inputs of the checks below *)

Module Scenario.
Import Store Clock Bot.

Definition new_years_eve : datetime :=
  {| year := 2024; month := 12; day := 31; time_of_day := 86399999999 |}.

Definition new_years_day : datetime :=
  {| year := 2025; month := 1; day := 1; time_of_day := 3 |}.

(** A clock that stays within one day for the whole call. *)
Definition steady_clock : nat → datetime := fun _ => new_years_eve.

(** A clock that passes midnight right after the first reading. *)
Definition rollover_clock : nat → datetime :=
  fun k => match k with O => new_years_eve | S _ => new_years_day end.

Definition cfg : config :=
  {| WORDS := ["geese"; "those"; "apple"; "brave"; "cloud"];
     get_users := fun _ => Some "player" |}.

Definition at_time (t : Z) : readings :=
  {| time_now := t; time_stats := t; datetime_now := steady_clock |}.

(** Chat 7 with a session on the word [those] that allows three guesses,
    as the collection would hold it. *)
Definition three_guess_session : session :=
  {| word := "those"; guesses := []; players := []; teams := ∅; start_time := 0 |}.

Definition three_guess_game : game_doc :=
  {| live := Some three_guess_session;
     settings := <["max_guesses" := SInt 3]> DEFAULT_SETTINGS;
     banned := [] |}.

Definition three_guess_world : world :=
  with_games (insert 7 three_guess_game) empty_world.


(** A global ledger of twelve players, player [i] with [i] wins. *)
Definition player_doc (n : Z) : score_doc :=
  {| scores := ∅;
     global := {[ "all_time" := n; "today" := 0; "week" := 0; "month" := 0 ]};
     team_scores := ∅ |}.

Definition twelve_players : world :=
  with_scores (fun _ => list_to_map ((fun n => (n, player_doc n)) <$> seqZ 1 12))
    empty_world.

Definition name_of (u : Z) : option string := Some (pretty u).

(** The store after [/settings max_guesses 10] in chat 7 of the empty
    one. *)
Definition settings_only_world : world :=
  (update_settings 7 true ["max_guesses"; "10"] empty_world).2.

(** The variant's database after [/new] in chat 7 has drawn [those]. *)
Definition those_db : WordSeek.db :=
  (WordSeek.new_game ["those"] 0 0 7 WordSeek.empty_db).2.


(** Five rows of the SQLite [scores] table for chat 7. *)
Definition five_rows : WordSeek.db :=
  {| WordSeek.games := ∅;
     WordSeek.scores :=
       list_to_map ((fun n => ((n, 7),
          {| WordSeek.today := 0; WordSeek.week := 0; WordSeek.month := 0;
             WordSeek.all_time := n |})) <$> seqZ 1 5);
     WordSeek.stats := ∅;
     WordSeek.games_started := 0;
     WordSeek.guesses_made := 0;
     WordSeek.last_guess := ∅ |}.

End Scenario.


(** * Properties *)

(** ** Sanity checks of the embedding on concrete inputs *)

Example get_hint_apple_grape :
  Hint.get_hint "apple" "grape" =
    Some [Hint.Present; Hint.Present; Hint.Absent; Hint.Absent; Hint.Correct].
Proof. reflexivity. Qed.

Example normalize_guess : Text.normalize "  GeEse " = "geese".
Proof. reflexivity. Qed.

Example int_of_string_neg : Text.int_of_string "-12" = Some (-12).
Proof. reflexivity. Qed.

(** A no-break space (U+00A0) is white space to [strip]; [É] (U+00C9) is a
    letter and has a lower case. *)
Example normalize_latin1 :
  Text.normalize (String (ascii_of_nat 160) "Those ") = "those"
  ∧ Text.normalize (String (ascii_of_nat 201) "t") = String (ascii_of_nat 233) "t"
  ∧ Text.isalpha (String (ascii_of_nat 233) "t") = true.
Proof. repeat split. Qed.

(** [int] skips white space at both ends and takes single underscores
    between digits. *)
Example int_of_string_python :
  Text.int_of_string " 7 " = Some 7
  ∧ Text.int_of_string "1_0" = Some 10
  ∧ Text.int_of_string "+007" = Some 7
  ∧ Text.int_of_string "1__0" = None
  ∧ Text.int_of_string "_1" = None
  ∧ Text.int_of_string "1_" = None
  ∧ Text.int_of_string "+ 5" = None
  ∧ Text.int_of_string "" = None.
Proof. repeat split. Qed.

Example isoweek_2024_12_31 :
  Clock.isoweek {| Clock.year := 2024; Clock.month := 12; Clock.day := 31;
                   Clock.time_of_day := 0 |} = 1.
Proof. reflexivity. Qed.

Example isoweek_2021_01_03 :
  Clock.isoweek {| Clock.year := 2021; Clock.month := 1; Clock.day := 3;
                   Clock.time_of_day := 0 |} = 53.
Proof. reflexivity. Qed.

Example isoweek_2026_11_03 :
  Clock.isoweek {| Clock.year := 2026; Clock.month := 11; Clock.day := 3;
                   Clock.time_of_day := 0 |} = 45.
Proof. reflexivity. Qed.

(** ** HintEngine *)

Section HintFacts.
Import Hint.

Lemma hint_loop_total target rest :
  ∀ i target_list,
    (i + length rest ≤ length target)%nat →
    ∃ h, hint_loop target i rest target_list = Some h ∧ length h = length rest.
Proof.
  induction rest as [|c rest IH]; intros i tl Hlen; simpl in *.
  - by exists [].
  - destruct (lookup_lt_is_Some_2 target i) as [t Ht]; [lia|].
    rewrite Ht.
    assert (S i + length rest ≤ length target)%nat as Hlen' by lia.
    destruct (decide (c = t)).
    + destruct (IH (S i) (<[i:=None]> tl) Hlen') as (h & -> & Hh).
      exists (Correct :: h). simpl. by rewrite Hh.
    + destruct (index_of c tl) as [j|].
      * destruct (IH (S i) (<[j:=None]> tl) Hlen') as (h & -> & Hh).
        exists (Present :: h). simpl. by rewrite Hh.
      * destruct (IH (S i) tl Hlen') as (h & -> & Hh).
        exists (Absent :: h). simpl. by rewrite Hh.
Qed.

(** [get_hint] returns one mark per letter whenever the target is at
    least as long as the guess. *)
Lemma get_hint_total guess target :
  (length (chars guess) ≤ length (chars target))%nat →
  ∃ h, get_hint guess target = Some h ∧ length h = length (chars guess).
Proof. intros H. apply hint_loop_total. lia. Qed.

Lemma get_hint_self word : is_Some (get_hint word word).
Proof. destruct (get_hint_total word word) as (h & -> & _); eauto. Qed.

(** The one-pass loop marks a position [Correct] exactly where the two
    letters coincide, whatever it has consumed before. *)
Lemma hint_loop_correct_iff target rest :
  ∀ i target_list h k,
    hint_loop target i rest target_list = Some h →
    (h !! k = Some Correct ↔
     ∃ c, rest !! k = Some c ∧ target !! (i + k)%nat = Some c).
Proof.
  induction rest as [|c rest IH]; intros i tl h k Hh; simpl in *.
  - simplify_eq. rewrite lookup_nil. split; [done|]. by intros (? & ? & _).
  - destruct (target !! i) as [t|] eqn:Ht; [|done].
    assert (∀ m h', hint_loop target (S i) rest (m : list (option ascii)) = Some h' →
                    ∀ k', h' !! k' = Some Correct ↔
                          ∃ c', rest !! k' = Some c' ∧ target !! (i + S k')%nat = Some c') as IH'.
    { intros m h' Hh' k'. rewrite (IH (S i) m h' k' Hh').
      by replace (S i + k')%nat with (i + S k')%nat by lia. }
    destruct (decide (c = t)) as [->|Hne].
    + destruct (hint_loop target (S i) rest _) as [h'|] eqn:Hh'; simplify_eq/=.
      destruct k as [|k]; simpl.
      * rewrite Nat.add_0_r. split; [by exists t|done].
      * by eapply IH'.
    + destruct (index_of c tl) as [j|].
      * destruct (hint_loop target (S i) rest _) as [h'|] eqn:Hh'; simplify_eq/=.
        destruct k as [|k]; simpl.
        -- rewrite Nat.add_0_r. split; [done|]. intros (c' & ? & ?). congruence.
        -- by eapply IH'.
      * destruct (hint_loop target (S i) rest _) as [h'|] eqn:Hh'; simplify_eq/=.
        destruct k as [|k]; simpl.
        -- rewrite Nat.add_0_r. split; [done|]. intros (c' & ? & ?). congruence.
        -- by eapply IH'.
Qed.

Lemma get_hint_correct_iff guess target h k :
  get_hint guess target = Some h →
  (h !! k = Some Correct ↔
   ∃ c, chars guess !! k = Some c ∧ chars target !! k = Some c).
Proof. intros Hh. by rewrite (hint_loop_correct_iff _ _ _ _ _ k Hh). Qed.

End HintFacts.

Section HintAgreement.
Import Hint.

Lemma index_of_ext c (P Q : list (option ascii)) :
  length P = length Q →
  (∀ k, P !! k = Some (Some c) ↔ Q !! k = Some (Some c)) →
  index_of c P = index_of c Q.
Proof.
  revert Q. induction P as [|x P IH]; intros [|y Q] Hlen Hext; simplify_eq/=; [done|].
  destruct (decide (x = Some c)) as [->|Hx], (decide (y = Some c)) as [->|Hy].
  - done.
  - destruct (Hext 0%nat) as [H _]. simpl in H. specialize (H eq_refl). congruence.
  - destruct (Hext 0%nat) as [_ H]. simpl in H. specialize (H eq_refl). congruence.
  - rewrite (IH Q); [done|done|]. intros k. apply (Hext (S k)).
Qed.

Lemma index_of_Some c (P : list (option ascii)) j :
  index_of c P = Some j → P !! j = Some (Some c).
Proof.
  revert j. induction P as [|x P IH]; intros j H; simpl in *; [done|].
  destruct (decide (x = Some c)) as [->|]; simplify_eq/=; [done|].
  destruct (index_of c P) as [j'|]; simplify_eq/=. by apply IH.
Qed.

Lemma good_index_of T R P Q c :
  good T R P → good T R Q → ¬ R c → index_of c P = index_of c Q.
Proof.
  intros (HlP & HsP & HiP) (HlQ & HsQ & HiQ) Hc.
  apply index_of_ext; [congruence|].
  intros k. split; intros H.
  - apply (HiQ k c); [|done]. by apply HsP.
  - apply (HiP k c); [|done]. by apply HsQ.
Qed.

Lemma good_consume T (R : ascii → Prop) P j c :
  good T R P → T !! j = Some c →
  good T (fun x => R x ∨ x = c) (<[j := None]> P).
Proof.
  intros (Hl & Hs & Hi) Hj. split; [|split].
  - by rewrite length_insert.
  - intros k x Hk. destruct (decide (j = k)) as [->|Hne].
    + rewrite list_lookup_insert_eq in Hk; [done|].
      rewrite Hl. by eapply lookup_lt_Some.
    + rewrite list_lookup_insert_ne in Hk by done. by apply Hs.
  - intros k x Hk Hx. destruct (decide (j = k)) as [->|Hne].
    + destruct Hx. right. congruence.
    + rewrite list_lookup_insert_ne by done. apply Hi; [done|]. tauto.
Qed.

Lemma good_weaken T (R R' : ascii → Prop) P :
  good T R P → (∀ x, R x → R' x) → good T R' P.
Proof.
  intros (Hl & Hs & Hi) HR. split; [done|]. split; [done|].
  intros k x Hk Hx. apply Hi; [done|]. intros ?. apply Hx. by apply HR.
Qed.

Lemma pass1_pool_lookup G :
  ∀ T k,
    pass1_pool G T !! k
    = (fun t => if decide (G !! k = Some t) then None else Some t) <$> T !! k.
Proof.
  induction G as [|g G IH]; intros T k.
  - replace (pass1_pool [] T) with (Some <$> T) by (by destruct T).
    rewrite list_lookup_fmap, lookup_nil. by destruct (T !! k).
  - destruct T as [|t T]; [done|]. simpl. destruct k as [|k]; simpl.
    + destruct (decide (g = t)) as [->|]; [by rewrite decide_True|].
      rewrite decide_False; [done|congruence].
    + apply IH.
Qed.

Lemma pass1_pool_good G T :
  good T (fun x => ∃ k, G !! k = Some x ∧ T !! k = Some x) (pass1_pool G T).
Proof.
  split; [|split].
  - revert T. induction G as [|g G IH]; intros [|t T]; simpl;
      rewrite ?length_fmap; auto.
  - intros k x. rewrite pass1_pool_lookup.
    destruct (T !! k) as [t|]; simpl; [|done].
    case_decide; [done|]. congruence.
  - intros k x Hk Hx. rewrite pass1_pool_lookup, Hk. simpl.
    rewrite decide_False; [done|]. intros HG. apply Hx. eauto.
Qed.

Lemma hint_loop_pass2 T rest :
  ∀ Tsuf i P1 P2 (R1 R2 : ascii → Prop),
    length rest = length Tsuf →
    (∀ k, Tsuf !! k = T !! (i + k)%nat) →
    good T R1 P1 → good T R2 P2 →
    (∀ k c, rest !! k = Some c → Tsuf !! k ≠ Some c → ¬ R1 c ∧ ¬ R2 c) →
    NoDup rest →
    hint_loop T i rest P1 = Some (pass2 rest Tsuf P2).
Proof.
  induction rest as [|c rest IH]; intros Tsuf i P1 P2 R1 R2 Hlen HT H1 H2 HR Hnd.
  - by destruct Tsuf.
  - destruct Tsuf as [|t Tsuf]; [done|]. simpl.
    assert (T !! i = Some t) as Hi.
    { rewrite <- (Nat.add_0_r i). rewrite <- HT. done. }
    rewrite Hi.
    assert (∀ k, Tsuf !! k = T !! (S i + k)%nat) as HT'.
    { intros k. replace (S i + k)%nat with (i + S k)%nat by lia. by rewrite <- HT. }
    apply NoDup_cons in Hnd as [Hc Hnd].
    assert (∀ c', c' ∈ rest → c' ≠ c) as Hfresh by (intros c' ? ->; done).
    simpl in Hlen.
    destruct (decide (c = t)) as [->|Hne].
    + rewrite (IH Tsuf (S i) (<[i:=None]> P1) P2 (fun x => R1 x ∨ x = t) R2);
        try done; [lia|by apply good_consume|].
      intros k c' Hk Hk'. destruct (HR (S k) c' Hk Hk') as [A B].
      split; [|done]. intros [?|?]; [done|].
      eapply Hfresh; [|done]. by eapply list_elem_of_lookup_2.
    + destruct (HR 0%nat c eq_refl) as [A B]; [simpl; congruence|].
      rewrite (good_index_of T (fun x => R1 x ∨ R2 x) P1 P2 c);
        [|eapply good_weaken; [exact H1|tauto]
         |eapply good_weaken; [exact H2|tauto]|tauto].
      destruct (index_of c P2) as [j|] eqn:Hj.
      * assert (T !! j = Some c) as HTj.
        { destruct H2 as (_ & Hs & _). apply Hs. by apply index_of_Some. }
        rewrite (IH Tsuf (S i) (<[j:=None]> P1) (<[j:=None]> P2)
                   (fun x => R1 x ∨ x = c) (fun x => R2 x ∨ x = c));
          try done; [lia|by apply good_consume|by apply good_consume|].
        intros k c' Hk Hk'. destruct (HR (S k) c' Hk Hk') as [A' B'].
        assert (c' ≠ c) by (eapply Hfresh; by eapply list_elem_of_lookup_2).
        tauto.
      * rewrite (IH Tsuf (S i) P1 P2 R1 R2); try done; [lia|].
        intros k c' Hk Hk'. apply (HR (S k) c' Hk Hk').
Qed.

(** On a guess without a repeated letter the loop of [get_hint] and the
    two-pass algorithm give the same marks. *)
Theorem get_hint_two_pass_distinct guess target :
  NoDup (chars guess) →
  length (chars guess) = length (chars target) →
  get_hint guess target = Some (hint_two_pass guess target).
Proof.
  intros Hnd Hlen. unfold get_hint, hint_two_pass.
  apply (hint_loop_pass2 (chars target) (chars guess) (chars target) 0
           (Some <$> chars target) (pass1_pool (chars guess) (chars target))
           (fun _ => False)
           (fun x => ∃ k, chars guess !! k = Some x ∧ chars target !! k = Some x));
    try done.
  - split; [by rewrite length_fmap|]. split.
    + intros k x. rewrite list_lookup_fmap. destruct (_ !! k); naive_solver.
    + intros k x Hk _. by rewrite list_lookup_fmap, Hk.
  - apply pass1_pool_good.
  - intros k c Hk Hk'. split; [tauto|].
    intros (k' & HG & HT).
    assert (k = k') as -> by (eapply NoDup_lookup; eauto).
    done.
Qed.

End HintAgreement.

(** C9. [get_hint("sassy", "sissy")] is Correct, Absent, Correct, Correct,
    Correct: the three [s] and the [y] sit at their own positions, and the
    [a] finds no letter of the target left to match. *)
Theorem get_hint_sassy_sissy :
  Hint.get_hint "sassy" "sissy"
  = Some [Hint.Correct; Hint.Absent; Hint.Correct; Hint.Correct; Hint.Correct].
Proof. reflexivity. Qed.

(** C1. On the guess [geese] against the target [those], [get_hint] marks
    the first [e] (position 1) Present, because the only [e] of the target
    is still in [target_list] when the loop gets there, and then marks the
    last [e] (position 4) Correct: the one [e] of [those] is credited
    twice. The two-pass algorithm consumes that [e] in its first pass and
    answers Absent at position 1. *)
Theorem get_hint_geese_those :
  Hint.get_hint "geese" "those"
  = Some [Hint.Absent; Hint.Present; Hint.Absent; Hint.Correct; Hint.Correct]
  ∧ Hint.hint_two_pass "geese" "those"
  = [Hint.Absent; Hint.Absent; Hint.Absent; Hint.Correct; Hint.Correct].
Proof. split; reflexivity. Qed.

(** ** The ledger: how each write shows in a player's documents *)

Section LedgerFacts.
Import Store Clock Ledger.

Lemma get0_inc key key' n (d : gmap string Z) :
  get0 key' (inc key n d) = if decide (key = key') then get0 key d + n else get0 key' d.
Proof.
  unfold inc, get0 at 1. rewrite lookup_insert.
  destruct (decide (key = key')) as [->|]; done.
Qed.

Lemma get0_inc_eq key n (d : gmap string Z) : get0 key (inc key n d) = get0 key d + n.
Proof. rewrite get0_inc. by rewrite decide_True. Qed.

Lemma get0_inc_ne key key' n (d : gmap string Z) :
  key ≠ key' → get0 key' (inc key n d) = get0 key' d.
Proof. intros. rewrite get0_inc. by rewrite decide_False. Qed.

Lemma stats_of_update_stats_doc u f w u' :
  stats_of (update_stats_doc u f w) u'
  = if decide (u = u') then f (stats_of w u) else stats_of w u'.
Proof.
  unfold stats_of, update_stats_doc; simpl. rewrite lookup_insert.
  destruct (decide (u = u')) as [->|]; done.
Qed.

Lemma scores_of_update_score_doc u f w u' :
  scores_of (update_score_doc u f w) u'
  = if decide (u = u') then f (scores_of w u) else scores_of w u'.
Proof.
  unfold scores_of, update_score_doc; simpl. rewrite lookup_insert.
  destruct (decide (u = u')) as [->|]; done.
Qed.

Lemma get0_inc_in outer key n (d : gmap string (gmap string Z)) key' :
  get0 key' (default ∅ (inc_in outer key n d !! outer))
  = if decide (key = key') then get0 key (default ∅ (d !! outer)) + n
    else get0 key' (default ∅ (d !! outer)).
Proof. unfold inc_in. rewrite lookup_insert_eq. simpl. apply get0_inc. Qed.

Lemma stat_update_stats t u g w u' key :
  stat (update_stats t u g w) u' key
  = if decide (u = u') then
      get0 key (inc "total_guesses" g (inc "games_played" 1 (counters (stats_of w u))))
    else stat w u' key.
Proof.
  unfold stat, update_stats.
  change (stats_of (with_bot_stats ?f ?w) u') with (stats_of w u').
  rewrite stats_of_update_stats_doc. by destruct (decide (u = u')).
Qed.

Lemma stat_update_score clk u chat mode team w u' key :
  stat (update_score clk u chat mode team w) u' key
  = if decide (u = u') then get0 key (inc "wins" 1 (counters (stats_of w u)))
    else stat w u' key.
Proof.
  unfold stat, update_score.
  rewrite stats_of_update_stats_doc.
  by destruct (decide (u = u')).
Qed.

(** *** Achievements *)

Lemma newly_unlocked_iff st a :
  newly_unlocked st a ↔ condition a (counters st) = true ∧ ach_id a ∉ achievements st.
Proof.
  unfold newly_unlocked. rewrite andb_True, bool_decide_spec.
  by rewrite Is_true_true.
Qed.

Lemma check_loop_spec user st achs :
  ∀ acc w,
    check_loop user st achs acc w
    = (acc ++ (ach_name <$> filter (fun a => newly_unlocked st a) achs),
       foldl (fun w a => unlock user a w) w (filter (fun a => newly_unlocked st a) achs)).
Proof.
  induction achs as [|a achs IH]; intros acc w; simpl.
  - by rewrite app_nil_r.
  - rewrite filter_cons. destruct (newly_unlocked st a) eqn:Ha.
    + rewrite decide_True by done. rewrite IH. simpl. by rewrite <- app_assoc.
    + rewrite decide_False by (by intros ?). apply IH.
Qed.

Lemma stats_of_unlocks user (l : list achievement) :
  ∀ w,
    stats_of (foldl (fun w a => unlock user a w) w l) user
    = {| counters := counters (stats_of w user);
         achievements := foldl (fun ids a => add_to_set (ach_id a) ids)
                               (achievements (stats_of w user)) l |}.
Proof.
  induction l as [|a l IH]; intros w; simpl.
  - by destruct (stats_of w user).
  - rewrite IH. unfold unlock. rewrite stats_of_update_stats_doc.
    by rewrite decide_True.
Qed.

Lemma elem_of_add_to_set x y l : x ∈ add_to_set y l ↔ x ∈ l ∨ x = y.
Proof.
  unfold add_to_set. destruct (decide (y ∈ l)).
  - split; [by left|]. by intros [?| ->].
  - rewrite elem_of_app, list_elem_of_singleton. done.
Qed.

Lemma elem_of_add_all x (l : list achievement) :
  ∀ ids,
    x ∈ foldl (fun ids a => add_to_set (ach_id a) ids) ids l
    ↔ x ∈ ids ∨ x ∈ ach_id <$> l.
Proof.
  induction l as [|a l IH]; intros ids; simpl.
  - rewrite elem_of_nil. tauto.
  - rewrite IH, elem_of_add_to_set, elem_of_cons. tauto.
Qed.

Lemma check_loop_nothing user st achs :
  (∀ a, a ∈ achs → newly_unlocked st a = false) →
  ∀ acc w, check_loop user st achs acc w = (acc, w).
Proof.
  induction achs as [|a achs IH]; intros Hall acc w; simpl; [done|].
  rewrite (Hall a) by (apply elem_of_cons; by left).
  apply IH. intros b Hb. apply Hall. apply elem_of_cons. by right.
Qed.

End LedgerFacts.

Section LedgerClaims.
Import Store Clock Ledger.

Local Ltac bucket :=
  repeat (first [rewrite get0_inc_in | rewrite get0_inc];
          first [rewrite decide_True by done | rewrite decide_False by done]).

(** The score document of the winner after [update_score]. *)
Lemma scores_of_update_score clk u chat_id mode team w :
  let now := clk 0%nat in
  scores (scores_of (update_score clk u chat_id mode team w) u)
  = inc_in (pretty chat_id) "month"
      (one_if (bool_decide (month now = month (clk 3%nat))))
      (inc_in (pretty chat_id) "week"
         (one_if (bool_decide (isoweek now = isoweek (clk 2%nat))))
         (inc_in (pretty chat_id) "today"
            (one_if (bool_decide (date now = date (clk 1%nat))))
            (inc_in (pretty chat_id) "all_time" 1 (scores (scores_of w u)))))
  ∧ global (scores_of (update_score clk u chat_id mode team w) u)
    = inc "month" (one_if (bool_decide (month now = month (clk 6%nat))))
        (inc "week" (one_if (bool_decide (isoweek now = isoweek (clk 5%nat))))
           (inc "today" (one_if (bool_decide (date now = date (clk 4%nat))))
              (inc "all_time" 1 (global (scores_of w u))))).
Proof.
  assert (Hs : scores_of (update_score clk u chat_id mode team w) u = _)
    by (unfold update_score;
        exact (eq_trans eq_refl (scores_of_update_score_doc _ _ _ _))).
  rewrite decide_True in Hs by done. by rewrite Hs.
Qed.

(** C6 (as amended). [update_score] adds one to [all_time], chat-scoped
    and global, and one to the player's [wins]. To each of [today],
    [week] and [month] it adds one when the clock reading taken for that
    bucket has the same date (ISO week number, month number) as the
    reading taken at the start of the call, and zero otherwise. *)
Theorem update_score_buckets clk u chat_id mode team w :
  let w' := update_score clk u chat_id mode team w in
  let now := clk 0%nat in
  chat_count w' u chat_id "all_time" = chat_count w u chat_id "all_time" + 1
  ∧ chat_count w' u chat_id "today"
    = chat_count w u chat_id "today"
      + one_if (bool_decide (date now = date (clk 1%nat)))
  ∧ chat_count w' u chat_id "week"
    = chat_count w u chat_id "week"
      + one_if (bool_decide (isoweek now = isoweek (clk 2%nat)))
  ∧ chat_count w' u chat_id "month"
    = chat_count w u chat_id "month"
      + one_if (bool_decide (month now = month (clk 3%nat)))
  ∧ global_count w' u "all_time" = global_count w u "all_time" + 1
  ∧ global_count w' u "today"
    = global_count w u "today"
      + one_if (bool_decide (date now = date (clk 4%nat)))
  ∧ global_count w' u "week"
    = global_count w u "week"
      + one_if (bool_decide (isoweek now = isoweek (clk 5%nat)))
  ∧ global_count w' u "month"
    = global_count w u "month"
      + one_if (bool_decide (month now = month (clk 6%nat)))
  ∧ stat w' u "wins" = stat w u "wins" + 1.
Proof.
  intros w' now. subst w' now.
  destruct (scores_of_update_score clk u chat_id mode team w) as [Hs Hg].
  unfold chat_count, global_count. rewrite Hs, Hg. clear Hs Hg.
  repeat split; try (bucket; lia).
  rewrite stat_update_score, decide_True by done. by rewrite get0_inc_eq.
Qed.


(** Other players' buckets and stats are left alone. *)
Lemma update_score_others clk u chat_id mode team w u' :
  u ≠ u' →
  scores_of (update_score clk u chat_id mode team w) u' = scores_of w u'
  ∧ stats_of (update_score clk u chat_id mode team w) u' = stats_of w u'.
Proof.
  intros Hne. split.
  - unfold update_score.
    etrans; [exact (eq_trans eq_refl (scores_of_update_score_doc _ _ _ _))|].
    by rewrite decide_False.
  - unfold update_score. rewrite stats_of_update_stats_doc.
    by rewrite decide_False.
Qed.

(** C6, the claim as stated fails: with the first reading taken on
    2024-12-31 and the next ones just after midnight, a win recorded on
    an empty ledger leaves [today] at 0 in the chat-scoped and in the
    global bucket, while [all_time] is 1. *)
Lemma update_score_rollover :
  let w' := update_score Scenario.rollover_clock 42 7 (SStr "standard") None empty_world in
  chat_count w' 42 7 "today" ≠ chat_count empty_world 42 7 "today" + 1
  ∧ global_count w' 42 "today" ≠ global_count empty_world 42 "today" + 1
  ∧ chat_count w' 42 7 "all_time" = 1.
Proof. vm_compute. by repeat split. Qed.

(** C8. [check_achievements] returns the names of exactly the
    achievements whose condition holds on the stats read at the start and
    whose id is not yet in the player's [achievements]; afterwards the
    array holds the old ids and those, the counters are as before, and a
    second call returns the empty list and changes nothing. *)
Theorem check_achievements_exact_idempotent user w :
  let st := stats_of w user in
  let qualifying :=
    filter (fun a => condition a (counters st) = true ∧ ach_id a ∉ achievements st)
           ACHIEVEMENTS in
  let w' := (check_achievements user w).2 in
  (check_achievements user w).1 = ach_name <$> qualifying
  ∧ (∀ id, id ∈ achievements (stats_of w' user)
           ↔ id ∈ achievements st ∨ id ∈ ach_id <$> qualifying)
  ∧ counters (stats_of w' user) = counters st
  ∧ check_achievements user w' = ([], w').
Proof.
  intros st qualifying w'.
  assert (qualifying = filter (fun a => newly_unlocked st a) ACHIEVEMENTS) as Hq.
  { apply list_filter_iff. intros a. by rewrite newly_unlocked_iff. }
  assert (Hst' : stats_of w' user
    = {| counters := counters st;
         achievements := foldl (fun ids a => add_to_set (ach_id a) ids)
                               (achievements st) qualifying |}).
  { subst w'. unfold check_achievements. rewrite check_loop_spec. simpl.
    rewrite stats_of_unlocks. by rewrite Hq. }
  split; [|split; [|split]].
  - unfold check_achievements. rewrite check_loop_spec. simpl. by rewrite Hq.
  - intros id. rewrite Hst'. simpl. apply elem_of_add_all.
  - by rewrite Hst'.
  - unfold check_achievements. apply check_loop_nothing.
    intros a Ha. apply not_true_is_false. intros Hnew.
    apply Is_true_true in Hnew. apply newly_unlocked_iff in Hnew as [Hc Hnot].
    apply Hnot. rewrite Hst'. simpl. apply elem_of_add_all.
    destruct (decide (ach_id a ∈ achievements st)) as [|Hfresh]; [by left|].
    right. apply list_elem_of_fmap. exists a. split; [done|].
    subst qualifying. apply list_elem_of_filter. rewrite Hst' in Hc. by simpl in Hc.
Qed.

End LedgerClaims.

(** ** GameSession: what one guess does *)

Section GuessFacts.
Import Store Clock Ledger Bot.

(** What [find_one] returns holds lists, so [record] raises before it
    writes: [KeyError] for a missing field or team, [AttributeError] at
    the first [add]. *)
Lemma record_raises cfg env chat_id user_id lang guess game mode w :
  ∃ e, record cfg env chat_id user_id lang guess game mode w = (Raised e, w)
       ∧ (e = KeyError ∨ e = AttributeError).
Proof.
  unfold record. destruct (live game) as [s|]; [|eauto]. cbv zeta.
  assert (py_teams (decode s) = PyList <$> teams s) as -> by done.
  assert (py_players (decode s) = PyList (players s)) as -> by done.
  case_bool_decide as Hm.
  - rewrite lookup_fmap. destruct (teams s !! next_team (decode s)); simpl; eauto.
  - simpl. eauto.
Qed.

(** The whole of [handle_guess]: "slow down" with the store untouched, or
    the limiter's entry set and nothing else written; a text that passes
    the five checks leaves the handler by an exception. *)
Lemma handle_guess_spec cfg env chat_id user_id text w :
  let res := handle_guess cfg env chat_id user_id text w in
  if rate_limited w user_id (time_now env) then res = (SlowDown, w)
  else
    res.2 = with_rate (insert user_id (time_now env)) w
    ∧ recorded res.1 = false
    ∧ res.1 ≠ SlowDown
    ∧ (passes_checks cfg env chat_id user_id text w = true →
       res.1 = Raised KeyError ∨ res.1 = Raised AttributeError).
Proof.
  unfold handle_guess, passes_checks.
  destruct (rate_limited w user_id (time_now env)); [done|].
  cbn [negb andb].
  change (games_coll (with_rate ?f w)) with (games_coll w).
  destruct (games_coll w !! chat_id) as [game|]; [|by repeat split].
  case_bool_decide as Hban; [by repeat split|]. cbn [negb andb].
  destruct (settings game !! "word_length") as [wl|]; [|by repeat split].
  destruct (length_differs (Text.normalize text) wl); cbn [negb andb orb].
  { unfold say. case_bool_decide; by repeat split. }
  destruct (Text.isalpha (Text.normalize text)); cbn [negb andb orb].
  2:{ unfold say. case_bool_decide; by repeat split. }
  case_bool_decide as Hw.
  { rewrite bool_decide_eq_false_2 by done.
    unfold say. case_bool_decide; by repeat split. }
  destruct (settings game !! "mode") as [mode|]; [|repeat split; auto; done].
  destruct (record_raises cfg env chat_id user_id (get_user_language w user_id)
              (Text.normalize text) game mode
              (with_rate (insert user_id (time_now env)) w)) as (e & -> & [-> | ->]);
    repeat split; auto; done.
Qed.

(** No guess is ever written to a log: whatever the store and the text,
    the reply is no outcome, and the collections are as they were. *)
Lemma handle_guess_frame cfg env chat_id user_id text w :
  let res := handle_guess cfg env chat_id user_id text w in
  recorded res.1 = false
  ∧ games_coll res.2 = games_coll w
  ∧ scores_coll res.2 = scores_coll w
  ∧ stats_coll res.2 = stats_coll w
  ∧ bot_stats_coll res.2 = bot_stats_coll w
  ∧ users_coll res.2 = users_coll w.
Proof.
  intros res. pose proof (handle_guess_spec cfg env chat_id user_id text w) as H.
  fold res in H. cbv zeta in H.
  destruct (rate_limited w user_id (time_now env)).
  - by rewrite H.
  - destruct H as (-> & Hrec & _). by repeat split.
Qed.

End GuessFacts.

(** ** The SQLite variant: what one guess does *)

Section VariantGuessFacts.
Import Bot.

(** The variant's [handle_guess]: a text that passes the checks raises
    [OperationalError]; nothing but the limiter's entry is ever written. *)
Lemma wordseek_handle_guess_spec cfg env chat_id user_id text d :
  let res := WordSeek.handle_guess cfg env chat_id user_id text d in
  recorded res.1 = false
  ∧ WordSeek.games res.2 = WordSeek.games d
  ∧ WordSeek.scores res.2 = WordSeek.scores d
  ∧ WordSeek.stats res.2 = WordSeek.stats d
  ∧ WordSeek.games_started res.2 = WordSeek.games_started d
  ∧ WordSeek.guesses_made res.2 = WordSeek.guesses_made d
  ∧ (WordSeek.passes_checks cfg env chat_id user_id text d = true →
     res.1 = Raised OperationalError).
Proof.
  unfold WordSeek.handle_guess, WordSeek.passes_checks.
  destruct (match WordSeek.last_guess d !! user_id with
            | Some last => time_now env - last <? RATE_LIMIT
            | None => false
            end); [by repeat split|].
  cbn [negb andb WordSeek.games].
  destruct (WordSeek.games d !! chat_id) as [row|]; [|by repeat split].
  destruct (WordSeek.settings row !! "word_length") as [wl|]; [|by repeat split].
  case_bool_decide as Hlen; cbn [negb andb orb]; [|by repeat split].
  destruct (Text.isalpha (Text.normalize text)); cbn [negb andb orb];
    [|by repeat split].
  case_bool_decide as Hw.
  { rewrite bool_decide_eq_false_2 by done. by repeat split. }
  by repeat split.
Qed.

End VariantGuessFacts.

(** ** GameSession: the claims about recorded guesses *)

Section SessionClaims.
Import Store Clock Ledger Bot.

(** C2. The text [those] sent to a chat whose session has the target
    [those] passes the five checks and is no win. In [B.py] the document
    read from the collection holds [players] as a list, [players.add]
    raises [AttributeError], and the session stays as it was. In
    [wordseek.py], after [/new] has drawn [those], [update_stats] finds
    the database locked by the handler's own pending update and raises
    [OperationalError]; the row stays and no score is written. *)
Theorem winning_guess_is_not_a_win :
  let cfg := Scenario.cfg in
  let env := Scenario.at_time 10 in
  let w := Scenario.three_guess_world in
  let res := handle_guess cfg env 7 42 "those" w in
  let d := Scenario.those_db in
  let res' := WordSeek.handle_guess cfg env 7 42 "those" d in
  (live <$> games_coll w !! 7 = Some (Some Scenario.three_guess_session)
   ∧ word Scenario.three_guess_session = Text.normalize "those"
   ∧ passes_checks cfg env 7 42 "those" w = true
   ∧ res.1 = Raised AttributeError
   ∧ is_win res.1 = false
   ∧ games_coll res.2 = games_coll w
   ∧ scores_coll res.2 = ∅
   ∧ stats_coll res.2 = ∅)
  ∧ (WordSeek.word <$> WordSeek.games d !! 7 = Some (Text.normalize "those")
     ∧ WordSeek.passes_checks cfg env 7 42 "those" d = true
     ∧ res'.1 = Raised OperationalError
     ∧ is_win res'.1 = false
     ∧ WordSeek.games res'.2 = WordSeek.games d
     ∧ WordSeek.scores res'.2 = ∅).
Proof. cbv zeta. repeat apply conj; vm_compute; reflexivity. Qed.


(** C10. A guess that passes the five checks is not counted. In [B.py],
    after [/settings max_guesses 10] in chat 7 of the empty store, the
    text [those] of player 42 passes them and raises [KeyError] on the
    missing log before [update_stats] is reached; in the chat with a
    session the text [apple] raises [AttributeError] at the same place.
    In [wordseek.py], after [/new], the text [apple] raises
    [OperationalError] inside [update_stats]. In all three the player's
    [games_played] and [total_guesses] are what they were: nothing. *)
Theorem accepted_guess_is_not_counted :
  let cfg := Scenario.cfg in
  let env := Scenario.at_time 10 in
  let res := handle_guess cfg env 7 42 "those" Scenario.settings_only_world in
  let res2 := handle_guess cfg env 7 42 "apple" Scenario.three_guess_world in
  let res' := WordSeek.handle_guess cfg env 7 42 "apple" Scenario.those_db in
  (passes_checks cfg env 7 42 "those" Scenario.settings_only_world = true
   ∧ res.1 = Raised KeyError
   ∧ stat res.2 42 "games_played" = 0
   ∧ stat res.2 42 "total_guesses" = 0
   ∧ games_played (profile_command 42 res.2) = 0
   ∧ avg_guesses (profile_command 42 res.2) = None)
  ∧ (passes_checks cfg env 7 42 "apple" Scenario.three_guess_world = true
     ∧ res2.1 = Raised AttributeError
     ∧ stat res2.2 42 "games_played" = 0
     ∧ stat res2.2 42 "total_guesses" = 0)
  ∧ (WordSeek.passes_checks cfg env 7 42 "apple" Scenario.those_db = true
     ∧ res'.1 = Raised OperationalError
     ∧ WordSeek.stats res'.2 !! 42 = None
     ∧ WordSeek.guesses_made res'.2 = 0).
Proof. cbv zeta. repeat apply conj; vm_compute; reflexivity. Qed.

End SessionClaims.

(** ** SessionRegistry: /new and /settings *)

Section RegistryFacts.
Import Store Clock Ledger Bot.

(** [/new] answers "in progress" for whatever document the chat has, with
    a session in it or not. *)
Lemma new_game_in_progress response r now chat_id args w g :
  match args with m :: _ => m | [] => "standard" end
    ∈ ["standard"; "team"; "competitive"] →
  games_coll w !! chat_id = Some g →
  new_game response r now chat_id args w = (GameInProgress, w).
Proof.
  intros Hmode Hg. unfold new_game.
  rewrite bool_decide_eq_false_2 by (by intros ?). by rewrite Hg.
Qed.

(** [/settings] on a chat without a document creates one that has
    settings and no session. *)
Lemma update_settings_upsert chat_id key value v w :
  games_coll w !! chat_id = None →
  validate_setting key value = Some v →
  update_settings chat_id true [key; value] w
  = (SettingsUpdated (<[key := v]> DEFAULT_SETTINGS),
     with_games (insert chat_id
       {| live := None; settings := <[key := v]> DEFAULT_SETTINGS; banned := [] |}) w).
Proof. intros Hg Hv. unfold update_settings. simpl. by rewrite Hv, Hg. Qed.

(** The SQLite variant's [/settings] never adds a row. *)
Lemma wordseek_update_settings_no_row chat_id admin args d :
  WordSeek.games d !! chat_id = None →
  WordSeek.games (WordSeek.update_settings chat_id admin args d).2 = WordSeek.games d.
Proof.
  intros Hno. unfold WordSeek.update_settings.
  repeat (case_match; simplify_eq/=; try done).
  by apply alter_id'.
Qed.

(** C4. On the empty registry, [/settings max_guesses 10] in chat 7
    leaves a document without a session (a guess sent to the chat raises
    [KeyError] on the missing log), and the [/new] that follows is
    answered "already in progress" and starts nothing. *)
Theorem settings_blocks_new_game :
  let w1 := (update_settings 7 true ["max_guesses"; "10"] empty_world).2 in
  games_coll empty_world !! 7 = None
  ∧ live <$> games_coll w1 !! 7 = Some None
  ∧ (handle_guess Scenario.cfg (Scenario.at_time 10) 7 42 "those" w1).1
    = Raised KeyError
  ∧ new_game (Some ["those"]) 0 0 7 [] w1 = (GameInProgress, w1).
Proof. repeat split. Qed.

(** The same two commands in the SQLite variant start the game. *)
Example wordseek_settings_then_new_game :
  let d1 := (WordSeek.update_settings 7 true ["max_guesses"; "10"] WordSeek.empty_db).2 in
  (WordSeek.new_game ["those"] 0 0 7 d1).1 = NewGame (SInt 5).
Proof. reflexivity. Qed.

(** C5. With a word source that answers the empty list, [/new] never
    creates a session, and never answers with an error of its own: where
    the word would be drawn, [random.choice] raises [IndexError]. *)
Theorem new_game_empty_source r now chat_id args w :
  let res := new_game (Some []) r now chat_id args w in
  res.2 = w
  ∧ (res.1 = InvalidMode ∨ res.1 = GameInProgress ∨ res.1 = Raised IndexError)
  ∧ (args = [] → games_coll w !! chat_id = None → res.1 = Raised IndexError).
Proof.
  unfold new_game. simpl. split; [|split].
  - repeat (case_match; simplify_eq/=; try done).
  - case_bool_decide; [auto|].
    destruct (games_coll w !! chat_id); [auto|].
    rewrite lookup_insert_ne by done. simpl. auto.
  - intros -> Hno. rewrite bool_decide_eq_false_2.
    + rewrite Hno. by rewrite lookup_insert_ne.
    + intros Hn. apply Hn. rewrite !elem_of_cons. auto.
Qed.

Example new_game_empty_source_empty_world :
  new_game (Some []) 0 0 7 [] empty_world = (Raised IndexError, empty_world).
Proof. reflexivity. Qed.

(** The fallback list is used when the request raises, not when it
    answers with nothing usable. *)
Example fetch_words_fallback_only_on_exception :
  fetch_words 5 None = fallback_words
  ∧ fetch_words 5 (Some ["word list"; "ab"]) = [].
Proof. split; reflexivity. Qed.

Example wordseek_new_game_no_words :
  WordSeek.new_game [] 0 0 7 WordSeek.empty_db = (Raised IndexError, WordSeek.empty_db).
Proof. reflexivity. Qed.

End RegistryFacts.

(** ** LeaderboardAggregator *)

Section LeaderboardFacts.
Import Store Clock Ledger Bot.

Lemma filter_none {A} (P : A → Prop) `{∀ x, Decision (P x)} (l : list A) :
  (∀ x, ¬ P x) → filter P l = [].
Proof.
  intros Hno. induction l as [|x l IH]; [done|].
  by rewrite filter_cons_False.
Qed.

(** Below [scores] the path [scores.<period>] finds a sub-document or
    nothing: no document passes the [$match] of the group scope. *)
Lemma matches_scores chat_id period d : matches "scores" chat_id period d = false.
Proof.
  unfold matches, path2. simpl.
  by destruct (scores d !! period).
Qed.

Lemma group_leaderboard_empty get_users chat_id period page w :
  from_option lines [] (get_leaderboard get_users "scores" chat_id period page 5 w) = [].
Proof.
  unfold get_leaderboard. case_match; [done|]. simpl.
  rewrite filter_none.
  - unfold sort_desc, merge_sort. simpl. by rewrite drop_nil.
  - intros e. rewrite matches_scores. by intros ?.
Qed.


Global Instance count_ge_total scope period : Total (count_ge scope period).
Proof. intros a b. unfold count_ge. lia. Qed.

Lemma sort_desc_sorted scope period rows :
  Sorted (count_ge scope period) (sort_desc scope period rows).
Proof. apply Sorted_merge_sort. apply _. Qed.

(** The buttons of the Mongo variant. *)
Lemma get_leaderboard_buttons get_users scope chat_id period page w b :
  get_leaderboard get_users scope chat_id period page 5 w = Some b →
  (has_prev b = true ↔ 1 < page)
  ∧ (has_next b = true
     ↔ page * 5 < Z.of_nat (length (filter (fun e : Z * score_doc =>
                                      gt0 (path2 scope period e.2))
                                   (map_to_list (scores_coll w))))).
Proof.
  unfold get_leaderboard. case_match; [done|]. intros [= <-]. simpl.
  split; apply Z.ltb_lt.
Qed.


Lemma omap_total {A B} (f : A → option B) (g : A → B) (l : list A) :
  (∀ x, f x = Some (g x)) → omap f l = g <$> l.
Proof.
  intros Hfg. induction l as [|x l IH]; [done|].
  simpl. rewrite Hfg. simpl. f_equal. exact IH.
Qed.


(** C7. After [update_score] has recorded a win of player 42 in chat 7,
    the chat-scoped [all_time] bucket of (42, 7) is 1, and the leaderboard
    of the group scope for chat 7 lists nobody: the [$match] looks for
    [scores.all_time] and [scores.chat_id], and [update_score] wrote
    [scores.7.all_time]. The global scope lists the player. *)
Theorem group_leaderboard_misses_winner :
  let w := update_score Scenario.steady_clock 42 7 (SStr "standard") None
             empty_world in
  chat_count w 42 7 "all_time" = 1
  ∧ get_leaderboard Scenario.name_of "scores" 7 "all_time" 1 5 w
    = Some {| lines := []; has_prev := false; has_next := false |}
  ∧ get_leaderboard Scenario.name_of "global" 7 "all_time" 1 5 w
    = Some {| lines := [(1, "42", 1)]; has_prev := false; has_next := false |}.
Proof. vm_compute. repeat split. Qed.

(** Twelve players in the global scope: pages of 5, 5 and 2 rows, ranks
    1 to 12, each player once. *)
Example global_leaderboard_pages :
  let page := fun p =>
    get_leaderboard Scenario.name_of "global" 7 "all_time" p 5 Scenario.twelve_players in
  page 1 = Some {| lines := [(1, "12", 12); (2, "11", 11); (3, "10", 10);
                             (4, "9", 9); (5, "8", 8)];
                   has_prev := false; has_next := true |}
  ∧ page 2 = Some {| lines := [(6, "7", 7); (7, "6", 6); (8, "5", 5);
                               (9, "4", 4); (10, "3", 3)];
                     has_prev := true; has_next := true |}
  ∧ page 3 = Some {| lines := [(11, "2", 2); (12, "1", 1)];
                     has_prev := true; has_next := false |}.
Proof. vm_compute. repeat split. Qed.

(** The SQLite variant offers [Next] on a full page: with exactly five
    rows, page 1 has the button and page 2 is empty. *)
Example wordseek_next_on_full_page :
  let page := fun p =>
    WordSeek.get_leaderboard Scenario.name_of "group" 7 "all_time" p 5 Scenario.five_rows in
  has_next <$> page 1 = Some true
  ∧ lines <$> page 2 = Some [].
Proof. vm_compute. repeat split. Qed.

End LeaderboardFacts.

(** * Further properties of the code *)

(** ** [get_hint] beyond the claims *)

Section HintMore.
Import Hint Commands.

Lemma hint_loop_short target rest :
  ∀ i target_list,
    (i ≤ length target)%nat →
    (length target < i + length rest)%nat →
    hint_loop target i rest target_list = None.
Proof.
  induction rest as [|c rest IH]; intros i tl Hi Hlen; simpl in *; [lia|].
  destruct (target !! i) as [t|] eqn:Ht; [|done].
  apply lookup_lt_Some in Ht.
  destruct (decide (c = t)); [|destruct (index_of c tl)];
    rewrite IH by lia; done.
Qed.

(** X1. [get_hint] raises [IndexError] exactly when the target is shorter
    than the guess; when it returns, it returns one mark per letter of
    the guess. *)
Theorem get_hint_raises_iff guess target :
  (get_hint guess target = None
   ↔ (length (chars target) < length (chars guess))%nat)
  ∧ (∀ h, get_hint guess target = Some h → length h = length (chars guess)).
Proof.
  split; [split|].
  - intros Hnone.
    destruct (decide (length (chars guess) ≤ length (chars target))%nat) as [Hle|]; [|lia].
    destruct (get_hint_total guess target Hle) as (h & Hh & _). congruence.
  - intros Hlt. apply hint_loop_short; lia.
  - intros h Hh.
    destruct (decide (length (chars guess) ≤ length (chars target))%nat) as [Hle|Hgt].
    + destruct (get_hint_total guess target Hle) as (h' & Hh' & Hlen). congruence.
    + unfold get_hint in Hh. rewrite hint_loop_short in Hh by lia. done.
Qed.

Lemma chars_inj s1 s2 : chars s1 = chars s2 → s1 = s2.
Proof.
  unfold chars. intros H.
  rewrite <- (string_of_list_ascii_of_string s1), <- (string_of_list_ascii_of_string s2).
  by rewrite H.
Qed.

(** X2. For a guess as long as the target, the hint is all [Correct]
    exactly when the guess is the target. *)
Theorem get_hint_all_correct_iff guess target :
  length (chars guess) = length (chars target) →
  (get_hint guess target = Some (replicate (length (chars guess)) Correct)
   ↔ guess = target).
Proof.
  intros Hlen.
  destruct (get_hint_total guess target ltac:(lia)) as (h & Hh & Hhl).
  rewrite Hh. split.
  - intros [= ->]. apply chars_inj. apply list_eq. intros k.
    destruct (chars guess !! k) as [c|] eqn:Hk.
    + pose proof (lookup_lt_Some _ _ _ Hk) as Hlt.
      destruct (proj1 (get_hint_correct_iff guess target _ k Hh)) as (c' & Hg & Ht).
      { by apply lookup_replicate_2. }
      congruence.
    + apply lookup_ge_None in Hk. symmetry. apply lookup_ge_None. lia.
  - intros ->. f_equal. apply list_eq. intros k.
    destruct (decide (k < length (chars target))%nat) as [Hlt|Hge].
    + rewrite lookup_replicate_2 by done.
      destruct (lookup_lt_is_Some_2 (chars target) k Hlt) as [c Hc].
      apply (get_hint_correct_iff target target h k Hh). eauto.
    + rewrite (proj1 (lookup_replicate_None _ _ _)) by lia.
      apply lookup_ge_None. lia.
Qed.

Lemma get_hint_all_correct_iff_witness :
  length (chars "those") = length (chars "those")
  ∧ (get_hint "those" "those" = Some (replicate (length (chars "those")) Correct)
     ↔ "those" = "those").
Proof. split; [reflexivity|]. exact (get_hint_all_correct_iff "those" "those" eq_refl). Defined.

Lemma index_of_None c (P : list (option ascii)) j :
  index_of c P = None → P !! j ≠ Some (Some c).
Proof.
  revert j. induction P as [|x P IH]; intros j H; simpl in *; [by rewrite lookup_nil|].
  destruct (decide (x = Some c)) as [->|Hx]; [done|].
  destruct (index_of c P) eqn:HP; [done|].
  destruct j as [|j]; simpl; [congruence|]. by apply IH.
Qed.

(** The marks given to letters against a pool that holds target letters
    only. *)
Lemma hint_loop_sound target rest :
  ∀ i target_list h k,
    (∀ j x, target_list !! j = Some (Some x) → target !! j = Some x) →
    hint_loop target i rest target_list = Some h →
    (h !! k = Some Present →
       ∃ c j, rest !! k = Some c ∧ j ≠ (i + k)%nat ∧ target !! j = Some c)
    ∧ (∀ c, rest !! k = Some c → c ∉ target → h !! k = Some Absent).
Proof.
  induction rest as [|c rest IH]; intros i tl h k Hsub Hh; simpl in *.
  - simplify_eq. rewrite lookup_nil. split; [done|]. intros ?. by rewrite lookup_nil.
  - destruct (target !! i) as [t|] eqn:Ht; [|done].
    assert (∀ j' j x, <[j' := None]> tl !! j = Some (Some x) → target !! j = Some x)
      as Hsub'.
    { intros j' j x Hj. destruct (decide (j' = j)) as [->|].
      - destruct (decide (j < length tl)%nat).
        + by rewrite list_lookup_insert_eq in Hj.
        + rewrite list_insert_ge in Hj by lia. by apply Hsub.
      - rewrite list_lookup_insert_ne in Hj by done. by apply Hsub. }
    assert (∀ tl' h', (∀ j x, tl' !! j = Some (Some x) → target !! j = Some x) →
              hint_loop target (S i) rest tl' = Some h' →
              ∀ k', (h' !! k' = Some Present →
                       ∃ c' j, rest !! k' = Some c' ∧ j ≠ (i + S k')%nat
                               ∧ target !! j = Some c')
                    ∧ (∀ c', rest !! k' = Some c' → c' ∉ target → h' !! k' = Some Absent))
      as IH'.
    { intros tl' h' Hs' Hh' k'. destruct (IH (S i) tl' h' k' Hs' Hh') as [A B].
      replace (i + S k')%nat with (S i + k')%nat by lia. by split. }
    destruct (decide (c = t)) as [->|Hne].
    + destruct (hint_loop target (S i) rest _) as [h'|] eqn:Hh'; simplify_eq/=.
      destruct k as [|k]; simpl.
      * split; [done|]. intros c [= <-] Hc. destruct Hc.
        by eapply list_elem_of_lookup_2.
      * eapply IH'; [|done]. apply Hsub'.
    + destruct (index_of c tl) as [j|] eqn:Hj.
      * destruct (hint_loop target (S i) rest _) as [h'|] eqn:Hh'; simplify_eq/=.
        pose proof (Hsub _ _ (index_of_Some _ _ _ Hj)) as HTj.
        destruct k as [|k]; simpl.
        -- split.
           ++ intros _. exists c, j. split; [done|]. split; [|done].
              intros ->. rewrite Nat.add_0_r in HTj. congruence.
           ++ intros c' [= <-] Hc. destruct Hc. by eapply list_elem_of_lookup_2.
        -- eapply IH'; [|done]. apply Hsub'.
      * destruct (hint_loop target (S i) rest _) as [h'|] eqn:Hh'; simplify_eq/=.
        destruct k as [|k]; simpl.
        -- split; [done|]. done.
        -- by eapply IH'.
Qed.

(** X3. [get_hint] marks a letter [Present] only if the target has that
    letter at another position, and it marks every letter that does not
    occur in the target [Absent]. *)
Theorem get_hint_sound guess target h k :
  get_hint guess target = Some h →
  (h !! k = Some Present →
     ∃ c j, chars guess !! k = Some c ∧ j ≠ k ∧ chars target !! j = Some c)
  ∧ (∀ c, chars guess !! k = Some c → c ∉ chars target → h !! k = Some Absent).
Proof.
  intros Hh.
  apply (hint_loop_sound (chars target) (chars guess) 0 (Some <$> chars target) h k);
    [|done].
  intros j x. rewrite list_lookup_fmap. destruct (_ !! j); naive_solver.
Qed.

Lemma get_hint_sound_witness :
  get_hint "geese" "those"
  = Some [Absent; Present; Absent; Correct; Correct]
  ∧ (([Absent; Present; Absent; Correct; Correct] : list mark) !! 1%nat = Some Present →
       ∃ c j, chars "geese" !! 1%nat = Some c ∧ j ≠ 1%nat ∧ chars "those" !! j = Some c)
  ∧ (∀ c, chars "geese" !! 0%nat = Some c → c ∉ chars "those" →
       ([Absent; Present; Absent; Correct; Correct] : list mark) !! 0%nat = Some Absent).
Proof.
  split; [reflexivity|]. split.
  - exact (proj1 (get_hint_sound "geese" "those" _ 1%nat eq_refl)).
  - exact (proj2 (get_hint_sound "geese" "those" _ 0%nat eq_refl)).
Defined.

Lemma good_whole (T : list ascii) (R : ascii → Prop) : good T R (Some <$> T).
Proof.
  split; [by rewrite length_fmap|]. split.
  - intros k x. rewrite list_lookup_fmap. destruct (_ !! k); naive_solver.
  - intros k x Hk _. by rewrite list_lookup_fmap, Hk.
Qed.

Lemma hint_loop_first_occurrence target rest :
  ∀ i target_list (R : ascii → Prop) h k c,
    good target R target_list →
    hint_loop target i rest target_list = Some h →
    rest !! k = Some c →
    c ∉ take k rest →
    ¬ R c →
    h !! k = Some (classify target (i + k) c).
Proof.
  induction rest as [|c0 rest IH]; intros i tl R h k c Hgood Hh Hk Hfirst HR;
    simpl in *; [done|].
  destruct (target !! i) as [t|] eqn:Ht; [|done].
  assert (∀ tl' (R' : ascii → Prop) h' k',
            good target R' tl' →
            hint_loop target (S i) rest tl' = Some h' →
            rest !! k' = Some c → c ∉ take k' rest → ¬ R' c →
            h' !! k' = Some (classify target (i + S k') c)) as IH'.
  { intros tl' R' h' k' ? ? ? ? ?.
    replace (i + S k')%nat with (S i + k')%nat by lia. by eapply IH. }
  destruct k as [|k]; simpl in *.
  - simplify_eq. rewrite Nat.add_0_r. unfold classify.
    destruct (decide (c = t)) as [->|Hne].
    + destruct (hint_loop target (S i) rest _); simplify_eq/=.
      by rewrite decide_True.
    + rewrite decide_False by congruence.
      rewrite (good_index_of target R tl (Some <$> target) c Hgood (good_whole _ _) HR) in Hh.
      destruct (index_of c (Some <$> target)) as [j|] eqn:Hj.
      * destruct (hint_loop target (S i) rest _); simplify_eq/=.
        apply index_of_Some in Hj. rewrite list_lookup_fmap in Hj.
        destruct (target !! j) as [x|] eqn:Hx; simplify_eq/=.
        rewrite decide_True; [done|]. by eapply list_elem_of_lookup_2.
      * destruct (hint_loop target (S i) rest _); simplify_eq/=.
        rewrite decide_False; [done|].
        intros (j & Hx)%list_elem_of_lookup.
        apply (index_of_None c (Some <$> target) j Hj).
        by rewrite list_lookup_fmap, Hx.
  - apply not_elem_of_cons in Hfirst as [Hc0 Hfirst].
    destruct (decide (c0 = t)) as [->|Hne].
    + destruct (hint_loop target (S i) rest _) as [h'|] eqn:Hh'; simplify_eq/=.
      eapply (IH' _ (fun x => R x ∨ x = t)); try done.
      * by apply good_consume.
      * tauto.
    + destruct (index_of c0 tl) as [j|] eqn:Hj.
      * destruct (hint_loop target (S i) rest _) as [h'|] eqn:Hh'; simplify_eq/=.
        eapply (IH' _ (fun x => R x ∨ x = c0)); try done.
        -- apply good_consume; [done|].
           destruct Hgood as (_ & Hs & _). apply Hs. by apply index_of_Some.
        -- tauto.
      * destruct (hint_loop target (S i) rest _) as [h'|] eqn:Hh'; simplify_eq/=.
        by eapply (IH' _ R).
Qed.

(** X4. Where a letter occurs in the guess for the first time, its mark
    is [Correct] if the target has it at that position, else [Present]
    if the target has it anywhere, else [Absent]. *)
Theorem get_hint_first_occurrence guess target h k c :
  get_hint guess target = Some h →
  chars guess !! k = Some c →
  c ∉ take k (chars guess) →
  h !! k = Some (classify (chars target) k c).
Proof.
  intros Hh Hk Hfirst.
  apply (hint_loop_first_occurrence (chars target) (chars guess) 0
           (Some <$> chars target) (fun _ => False) h k c (good_whole _ _) Hh Hk Hfirst).
  tauto.
Qed.

Lemma get_hint_first_occurrence_witness :
  get_hint "geese" "those" = Some [Absent; Present; Absent; Correct; Correct]
  ∧ chars "geese" !! 1%nat = Some "e"%char
  ∧ ("e"%char ∉ take 1 (chars "geese"))
  ∧ ([Absent; Present; Absent; Correct; Correct] : list mark) !! 1%nat
    = Some (classify (chars "those") 1 "e"%char).
Proof.
  assert ("e"%char ∉ take 1 (chars "geese")) as Hfirst.
  { simpl. intros H. apply list_elem_of_singleton in H. discriminate H. }
  split; [reflexivity|]. split; [reflexivity|]. split; [exact Hfirst|].
  exact (get_hint_first_occurrence "geese" "those" _ 1%nat "e"%char
           eq_refl eq_refl Hfirst).
Defined.

End HintMore.

(** ** The cooldown of [handle_guess] *)

Section RateLimit.
Import Store Clock Ledger Bot.

(** A guess that is not refused by the limiter sets the player's mark to
    the time of the guess; a refused one changes nothing. *)
Lemma handle_guess_rate cfg env chat_id user_id text w :
  let res := handle_guess cfg env chat_id user_id text w in
  (rate_limited w user_id (time_now env) = true → res = (SlowDown, w))
  ∧ (rate_limited w user_id (time_now env) = false →
       res.1 ≠ SlowDown
       ∧ user_last_guess res.2 = <[user_id := time_now env]> (user_last_guess w)).
Proof.
  intros res. pose proof (handle_guess_spec cfg env chat_id user_id text w) as H.
  fold res in H. cbv zeta in H. split; intros Hr; rewrite Hr in H; [done|].
  destruct H as (-> & _ & Hne & _). done.
Qed.

(** X5. After a guess of a player that the limiter let through at time
    [t1], a text of the same player at time [t2], in whatever chat, is
    answered "slow down" and changes nothing when [t2 - t1 < 2], and is
    not refused by the limiter when [t2 - t1 >= 2]. *)
Theorem rate_limit_window cfg env1 env2 chat1 chat2 user_id text1 text2 w :
  let first := handle_guess cfg env1 chat1 user_id text1 w in
  let second := handle_guess cfg env2 chat2 user_id text2 first.2 in
  first.1 ≠ SlowDown →
  (time_now env2 - time_now env1 < RATE_LIMIT → second = (SlowDown, first.2))
  ∧ (RATE_LIMIT ≤ time_now env2 - time_now env1 → second.1 ≠ SlowDown).
Proof.
  intros first second Hfirst.
  destruct (handle_guess_rate cfg env1 chat1 user_id text1 w) as [Hslow Hpass].
  destruct (rate_limited w user_id (time_now env1)) eqn:Hr.
  { destruct Hfirst. subst first. by rewrite Hslow. }
  destruct (Hpass eq_refl) as [_ Hmark]. fold first in Hmark.
  assert (rate_limited first.2 user_id (time_now env2)
          = (time_now env2 - time_now env1 <? RATE_LIMIT)) as Hlim.
  { unfold rate_limited. by rewrite Hmark, lookup_insert_eq. }
  destruct (handle_guess_rate cfg env2 chat2 user_id text2 first.2) as [Hslow2 Hpass2].
  fold second in Hslow2, Hpass2. split; intros Ht.
  - apply Hslow2. rewrite Hlim. by apply Z.ltb_lt.
  - apply Hpass2. rewrite Hlim. apply Z.ltb_ge. lia.
Qed.

Lemma rate_limit_window_witness :
  let first := handle_guess Scenario.cfg (Scenario.at_time 10) 7 42 "geese"
                 Scenario.three_guess_world in
  let second := handle_guess Scenario.cfg (Scenario.at_time 11) 8 42 "apple" first.2 in
  first.1 ≠ SlowDown
  ∧ (Bot.time_now (Scenario.at_time 11) - Bot.time_now (Scenario.at_time 10) < RATE_LIMIT)
  ∧ second = (SlowDown, first.2).
Proof.
  assert ((handle_guess Scenario.cfg (Scenario.at_time 10) 7 42 "geese"
             Scenario.three_guess_world).1 ≠ SlowDown) as H1 by (vm_compute; discriminate).
  assert (Bot.time_now (Scenario.at_time 11) - Bot.time_now (Scenario.at_time 10)
          < RATE_LIMIT) as H2 by (vm_compute; reflexivity).
  split; [exact H1|]. split; [exact H2|].
  exact (proj1 (rate_limit_window Scenario.cfg (Scenario.at_time 10) (Scenario.at_time 11)
                  7 8 42 "geese" "apple" Scenario.three_guess_world H1) H2).
Defined.

End RateLimit.

(** ** Word sources *)

Section WordSources.
Import Store Clock Ledger Bot Inv.

Lemma length_chars s : length (list_ascii_of_string s) = String.length s.
Proof. induction s as [|c s IH]; simpl; [done|]. by rewrite IH. Qed.

Lemma length_of_chars l : String.length (string_of_list_ascii l) = length l.
Proof. induction l as [|c l IH]; simpl; [done|]. by rewrite IH. Qed.

Lemma lower_length s : String.length (Text.lower s) = String.length s.
Proof.
  unfold Text.lower. by rewrite length_of_chars, length_fmap, length_chars.
Qed.

Lemma to_lower_alpha c :
  Text.is_alpha c = true →
  Text.is_alpha (Text.to_lower c) = true
  ∧ Text.to_lower (Text.to_lower c) = Text.to_lower c
  ∧ Text.is_upper (Text.to_lower c) = false.
Proof.
  destruct c as [[] [] [] [] [] [] [] []]; vm_compute; intros H;
    first [discriminate H | by repeat split].
Qed.

Lemma lower_chars_alpha (l : list ascii) :
  forallb Text.is_alpha l = true →
  forallb Text.is_alpha (Text.to_lower <$> l) = true
  ∧ Text.to_lower <$> (Text.to_lower <$> l) = Text.to_lower <$> l.
Proof.
  induction l as [|c l IH]; [done|].
  rewrite !fmap_cons. cbn [forallb]. intros [Hc Hl]%andb_true_iff.
  destruct (to_lower_alpha c Hc) as (A & B & _). destruct (IH Hl) as [A' B'].
  split; [by rewrite A, A'|]. by rewrite B, B'.
Qed.

Lemma lower_alpha s :
  Text.isalpha s = true →
  Text.isalpha (Text.lower s) = true ∧ Text.lower (Text.lower s) = Text.lower s.
Proof.
  unfold Text.isalpha, Text.lower. rewrite !list_ascii_of_string_of_list_ascii.
  destruct (list_ascii_of_string s) as [|c l] eqn:Hs; [done|]. clear Hs.
  intros Hall. destruct (lower_chars_alpha (c :: l) Hall) as [A B].
  split; [|by rewrite B].
  rewrite fmap_cons in A |- *. exact A.
Qed.

(** The words [fetch_words] yields, by source. *)
Lemma fetch_words_wf length response w :
  w ∈ fetch_words length response →
  Text.isalpha w = true
  ∧ Text.lower w = w
  ∧ Z.of_nat (String.length w) = match response with Some _ => length | None => 5 end.
Proof.
  unfold fetch_words. destruct response as [entries|].
  - intros (e & -> & He)%list_elem_of_fmap.
    apply list_elem_of_filter in He as [[Hlen Halpha] _].
    apply Is_true_true in Halpha.
    destruct (lower_alpha e Halpha) as [A B].
    split; [done|]. split; [done|]. by rewrite lower_length.
  - unfold fallback_words. rewrite !elem_of_cons, elem_of_nil.
    intros H. repeat (destruct H as [->|H]; [by vm_compute|]). done.
Qed.

(** X6. Every word [fetch_words(length)] returns from a reply has
    exactly [length] letters, all alphabetic and none upper-case; the
    words it returns when the request fails have five letters whatever
    [length] is. *)
Theorem fetch_words_well_formed length response w :
  w ∈ fetch_words length response →
  Text.isalpha w = true
  ∧ Text.lower w = w
  ∧ Z.of_nat (String.length w) = match response with Some _ => length | None => 5 end.
Proof. apply fetch_words_wf. Qed.

Lemma fetch_words_well_formed_witness :
  "those" ∈ fetch_words 5 (Some ["Those"; "word list"; "ab"])
  ∧ Text.isalpha "those" = true
  ∧ Text.lower "those" = "those"
  ∧ Z.of_nat (String.length "those") = 5.
Proof.
  assert ("those" ∈ fetch_words 5 (Some ["Those"; "word list"; "ab"])) as Hin
    by (vm_compute; apply list_elem_of_here).
  split; [exact Hin|].
  exact (fetch_words_well_formed 5 (Some ["Those"; "word list"; "ab"]) "those" Hin).
Defined.

(** X7. Every word [load_words] takes from [words.txt] has five
    letters, all alphabetic and none upper-case. *)
Theorem load_words_well_formed file w :
  w ∈ WordSeekCommands.load_words file →
  Text.isalpha w = true ∧ Text.lower w = w ∧ String.length w = 5%nat.
Proof.
  unfold WordSeekCommands.load_words. destruct file as [lines|].
  - intros (e & -> & He)%list_elem_of_fmap.
    apply list_elem_of_filter in He as [[Hlen Halpha] _].
    apply Is_true_true in Halpha.
    destruct (lower_alpha _ Halpha) as [A B].
    split; [done|]. split; [done|]. by rewrite lower_length.
  - unfold fallback_words. rewrite !elem_of_cons, elem_of_nil.
    intros H. repeat (destruct H as [->|H]; [by vm_compute|]). done.
Qed.

Lemma load_words_well_formed_witness :
  "those" ∈ WordSeekCommands.load_words (Some ["  Those "; "toolong"; "ab1cd"])
  ∧ Text.isalpha "those" = true ∧ Text.lower "those" = "those"
  ∧ String.length "those" = 5%nat.
Proof.
  assert ("those" ∈ WordSeekCommands.load_words (Some ["  Those "; "toolong"; "ab1cd"]))
    as Hin by (vm_compute; apply list_elem_of_here).
  split; [exact Hin|].
  exact (load_words_well_formed (Some ["  Those "; "toolong"; "ab1cd"]) "those" Hin).
Defined.

End WordSources.


(** ** What the handlers of [B.py] can reach *)

Section Reachable.
Import Store Clock Ledger Bot Inv Commands.

Lemma settings_ok_default : settings_ok DEFAULT_SETTINGS.
Proof.
  split; [|split].
  - exists 30. by vm_compute.
  - left. by vm_compute.
  - exists "standard". by vm_compute.
Qed.

Lemma validate_setting_cases key value v :
  validate_setting key value = Some v →
  (key = "max_guesses" → ∃ n, v = SInt n ∧ 0 < n)
  ∧ (key = "word_length" → v = SStr value)
  ∧ (key = "mode" → v = SStr value).
Proof.
  unfold validate_setting. intros H. split; [|split]; intros ->; simpl in H.
  - destruct (Text.int_of_string value) as [n|]; [|done].
    destruct (n <=? 0) eqn:Hn; simplify_eq. exists n. split; [done|].
    apply Z.leb_gt in Hn. lia.
  - by simplify_eq.
  - by simplify_eq.
Qed.

Lemma settings_ok_insert key value v st :
  validate_setting key value = Some v →
  settings_ok st → settings_ok (<[key := v]> st).
Proof.
  intros Hv ((n & Hn & Hpos) & Hwl & (m & Hm)).
  destruct (validate_setting_cases key value v Hv) as (A & B & C).
  split; [|split].
  - destruct (decide (key = "max_guesses")) as [->|Hne].
    + destruct (A eq_refl) as (n' & -> & ?). exists n'. by rewrite lookup_insert_eq.
    + exists n. by rewrite lookup_insert_ne.
  - destruct (decide (key = "word_length")) as [->|Hne].
    + right. exists value. rewrite (B eq_refl). by rewrite lookup_insert_eq.
    + by rewrite lookup_insert_ne.
  - destruct (decide (key = "mode")) as [->|Hne].
    + exists value. rewrite (C eq_refl). by rewrite lookup_insert_eq.
    + exists m. by rewrite lookup_insert_ne.
Qed.

Lemma new_word_length mode :
  (<["mode" := SStr mode]> DEFAULT_SETTINGS : gmap string sval) !! "word_length"
  = Some (SInt 5).
Proof. by rewrite lookup_insert_ne. Qed.

(** [/new] in full: the store is never written, and the reply is decided
    by the mode, the chat's document and the word source. *)
Lemma new_game_spec response r now chat_id args w :
  let mode := match args with m :: _ => m | [] => "standard" end in
  new_game response r now chat_id args w
  = (if bool_decide (mode ∉ ["standard"; "team"; "competitive"]) then InvalidMode
     else match games_coll w !! chat_id with
          | Some _ => GameInProgress
          | None =>
              match choice r (fetch_words 5 response) with
              | None => Raised IndexError
              | Some _ => Raised InvalidDocument
              end
          end, w).
Proof.
  intros mode. unfold new_game. fold mode.
  case_bool_decide as Hmode; [done|].
  destruct (games_coll w !! chat_id); [done|].
  rewrite new_word_length.
  by destruct (choice r (fetch_words 5 response)).
Qed.


(** [/kick] in full: the store is never written. *)
Lemma kick_user_spec cfg chat_id admin args w :
  let res := kick_user cfg chat_id admin args w in
  res.2 = w
  ∧ (res.1 = AdminOnly ∨ res.1 = Usage ∨ res.1 = InvalidUserId
     ∨ (res.1 = UserKicked ∧ games_coll w !! chat_id = None)).
Proof.
  unfold kick_user. destruct admin; simpl; [|auto].
  destruct args as [|a args]; [auto|].
  destruct (_ ≫= _) as [target|]; [|auto 6].
  destruct (games_coll w !! chat_id) as [g|]; [|auto 6].
  destruct (live g) as [s|]; auto 6.
Qed.

(** X9. [/kick] removes nobody: whatever the arguments and the store,
    the store is left as it was, and "kicked" is answered only in a chat
    without a document; in a chat with one, [players] is missing or a
    list, and the exception is answered "Invalid user ID!". *)
Theorem kick_user_changes_nothing cfg chat_id admin args w :
  let res := kick_user cfg chat_id admin args w in
  res.2 = w
  ∧ (res.1 = AdminOnly ∨ res.1 = Usage ∨ res.1 = InvalidUserId
     ∨ (res.1 = UserKicked ∧ games_coll w !! chat_id = None)).
Proof. apply kick_user_spec. Qed.

(** X10. [handle_guess] never writes a guess to a log: whatever the
    text and the store, the reply is none of "win", "game over" and
    "guesses left", and the five collections are left as they were. *)
Theorem handle_guess_never_records cfg env chat_id user_id text w :
  let res := handle_guess cfg env chat_id user_id text w in
  recorded res.1 = false
  ∧ is_outcome res.1 = false
  ∧ games_coll res.2 = games_coll w
  ∧ scores_coll res.2 = scores_coll w
  ∧ stats_coll res.2 = stats_coll w
  ∧ bot_stats_coll res.2 = bot_stats_coll w
  ∧ users_coll res.2 = users_coll w.
Proof.
  intros res.
  destruct (handle_guess_frame cfg env chat_id user_id text w)
    as (Hrec & Hg & Hsc & Hst & Hb & Hu).
  fold res in Hrec, Hg, Hsc, Hst, Hb, Hu.
  repeat split; try done. by destruct (res.1).
Qed.

(** X11. A text that passes the five checks leaves [handle_guess] by an
    exception, with the limiter's entry as the only write: [KeyError] in
    a chat whose document has no session, or no bucket for the team in
    turn, and [AttributeError] at the first [add] otherwise. *)
Theorem checked_guess_raises cfg env chat_id user_id text w :
  passes_checks cfg env chat_id user_id text w = true →
  let res := handle_guess cfg env chat_id user_id text w in
  (res.1 = Raised KeyError ∨ res.1 = Raised AttributeError)
  ∧ res.2 = with_rate (insert user_id (time_now env)) w.
Proof.
  intros Hp res.
  pose proof (handle_guess_spec cfg env chat_id user_id text w) as H.
  fold res in H. cbv zeta in H.
  assert (rate_limited w user_id (time_now env) = false) as Hr.
  { unfold passes_checks in Hp. by destruct (rate_limited w user_id (time_now env)). }
  rewrite Hr in H. destruct H as (Hw & _ & _ & Hraise). auto.
Qed.

Lemma checked_guess_raises_witness :
  passes_checks Scenario.cfg (Scenario.at_time 10) 7 42 "Those"
    Scenario.settings_only_world = true
  ∧ let res := handle_guess Scenario.cfg (Scenario.at_time 10) 7 42 "Those"
                 Scenario.settings_only_world in
    (res.1 = Raised KeyError ∨ res.1 = Raised AttributeError)
    ∧ res.2 = with_rate (insert 42 (time_now (Scenario.at_time 10)))
                Scenario.settings_only_world.
Proof.
  assert (passes_checks Scenario.cfg (Scenario.at_time 10) 7 42 "Those"
            Scenario.settings_only_world = true) as Hp by (vm_compute; reflexivity).
  split; [exact Hp|].
  exact (checked_guess_raises Scenario.cfg (Scenario.at_time 10) 7 42 "Those"
           Scenario.settings_only_world Hp).
Defined.

(** *** Every event *)

Lemma handle_guess_no_new_game cfg env chat_id user_id text w n :
  (handle_guess cfg env chat_id user_id text w).1 ≠ NewGame n.
Proof.
  unfold handle_guess, say. repeat case_match; try done.
  match goal with
  | |- (record _ _ _ _ ?lang ?guess ?game ?mode ?w1).1 ≠ _ =>
      by destruct (record_raises cfg env chat_id user_id lang guess game mode w1)
        as (e & -> & _)
  end.
Qed.

(** No handler writes a score, a stat or a bot counter, and none answers
    that a game has started or that a guess was taken. *)
Lemma step_ledger cfg ev w :
  let res := step cfg ev w in
  scores_coll res.2 = scores_coll w
  ∧ stats_coll res.2 = stats_coll w
  ∧ bot_stats_coll res.2 = bot_stats_coll w
  ∧ recorded res.1 = false
  ∧ (∀ n, res.1 ≠ NewGame n).
Proof.
  destruct ev as [c args response r now|c admin|c admin args|c admin args
                  |c admin args|c u text env|u args]; cbn [step].
  - rewrite new_game_spec. cbv zeta.
    repeat case_match; by repeat split.
  - unfold end_game. repeat case_match; by repeat split.
  - unfold update_settings. repeat case_match; by repeat split.
  - unfold ban_user. repeat case_match; by repeat split.
  - destruct (kick_user_spec cfg c admin args w) as [-> Hr]. cbv zeta.
    destruct Hr as [->|[->|[->|[-> _]]]]; by repeat split.
  - destruct (handle_guess_frame cfg env c u text w) as (Hrec & _ & Hsc & Hst & Hb & _).
    cbv zeta in *. repeat split; try done.
    apply handle_guess_no_new_game.
  - unfold language_command. repeat case_match; by repeat split.
Qed.

Lemma run_ledger cfg evs :
  ∀ w,
    let res := run cfg evs w in
    scores_coll res.2 = scores_coll w
    ∧ stats_coll res.2 = stats_coll w
    ∧ bot_stats_coll res.2 = bot_stats_coll w
    ∧ Forall (fun r => recorded r = false ∧ ∀ n, r ≠ NewGame n) res.1.
Proof.
  induction evs as [|ev evs IH]; intros w; cbn [run]; [by repeat split|].
  destruct (step_ledger cfg ev w) as (A & B & C & D & E).
  destruct (step cfg ev w) as [r w1]. simpl in A, B, C, D, E.
  destruct (IH w1) as (A' & B' & C' & D').
  destruct (run cfg evs w1) as [rs w2]. simpl in *.
  rewrite A', B', C'. repeat split; try done. by constructor.
Qed.

(** X12. Whatever events the bot handles, from whatever store, the
    scores, the player stats and the bot counters are left as they were,
    and no reply says that a game has started or answers a recorded
    guess. *)
Theorem ledger_is_never_written cfg evs w :
  let res := run cfg evs w in
  scores_coll res.2 = scores_coll w
  ∧ stats_coll res.2 = stats_coll w
  ∧ bot_stats_coll res.2 = bot_stats_coll w
  ∧ Forall (fun r => recorded r = false ∧ ∀ n, r ≠ NewGame n) res.1.
Proof. apply run_ledger. Qed.

(** *** The game documents *)

Lemma games_ok_same w w' : games_coll w' = games_coll w → games_ok w → games_ok w'.
Proof. unfold games_ok. by intros ->. Qed.

Lemma games_ok_empty : games_ok empty_world.
Proof. intros c g. simpl. by rewrite lookup_empty. Qed.

Lemma update_settings_games_ok chat_id admin args w :
  games_ok w → games_ok (update_settings chat_id admin args w).2.
Proof.
  intros Hw. unfold update_settings.
  destruct admin; simpl; [|done].
  destruct args as [|key [|value [|? ?]]]; try done.
  destruct (validate_setting key value) as [v|] eqn:Hv; [|done]. simpl.
  intros c g. simpl. destruct (decide (chat_id = c)) as [<-|Hc].
  - rewrite lookup_insert_eq. intros [= <-].
    destruct (games_coll w !! chat_id) as [g|] eqn:Hg.
    + destruct (Hw _ _ Hg) as (Hset & Hlive & Hban).
      split; [by eapply settings_ok_insert|]. done.
    + split; [eapply settings_ok_insert; [done|apply settings_ok_default]|].
      split; [done|]. constructor.
  - rewrite lookup_insert_ne by done. apply Hw.
Qed.

Lemma ban_user_games_ok cfg chat_id admin args w :
  games_ok w → games_ok (ban_user cfg chat_id admin args w).2.
Proof.
  intros Hw. unfold ban_user.
  destruct admin; simpl; [|done]. destruct args as [|a args]; [done|].
  destruct (_ ≫= _) as [target|]; [|done]. simpl.
  intros c g. simpl. destruct (decide (chat_id = c)) as [<-|Hc].
  - rewrite lookup_alter_eq.
    destruct (games_coll w !! chat_id) as [g0|] eqn:Hg; [|done].
    intros [= <-]. destruct (Hw _ _ Hg) as (Hset & Hlive & Hban).
    split; [done|]. split; [done|]. simpl.
    destruct (decide (target ∈ banned g0)) as [Hin|Hin]; [done|].
    apply NoDup_app. split; [done|]. split; [|apply NoDup_singleton].
    intros x Hx ->%list_elem_of_singleton. done.
  - rewrite lookup_alter_ne by done. apply Hw.
Qed.

Lemma step_games_ok cfg ev w : games_ok w → games_ok (step cfg ev w).2.
Proof.
  intros Hw.
  destruct ev as [c args response r now|c admin|c admin args|c admin args
                  |c admin args|c u text env|u args]; cbn [step].
  - by rewrite new_game_spec.
  - unfold end_game. destruct admin; simpl; [|done].
    destruct (games_coll w !! c) as [g|]; [|done].
    assert (games_ok (with_games (delete c) w)) as Hdel.
    { intros c' g'. simpl. destruct (decide (c = c')) as [<-|Hc].
      - by rewrite lookup_delete_eq.
      - rewrite lookup_delete_ne by done. apply Hw. }
    by destruct (live g).
  - by apply update_settings_games_ok.
  - by apply ban_user_games_ok.
  - by rewrite (proj1 (kick_user_spec cfg c admin args w)).
  - eapply games_ok_same; [|done].
    apply (handle_guess_frame cfg env c u text w).
  - unfold language_command. by repeat case_match.
Qed.

Lemma run_games_ok cfg evs : ∀ w, games_ok w → games_ok (run cfg evs w).2.
Proof.
  induction evs as [|ev evs IH]; intros w Hw; cbn [run]; [done|].
  pose proof (step_games_ok cfg ev w Hw) as Hstep.
  destruct (step cfg ev w) as [r w1]. specialize (IH w1 Hstep).
  by destruct (run cfg evs w1).
Qed.

(** X13. No chat ever has a session: in every store the handlers reach
    from the empty one, each game document is one that [/settings]
    inserted: it has settings with a positive [max_guesses] and a mode,
    a ban list without duplicates, and none of [word], [guesses],
    [players], [teams]. *)
Theorem no_session_is_reachable cfg evs :
  games_ok (run cfg evs empty_world).2.
Proof. apply run_games_ok, games_ok_empty. Qed.



(** *** One chat at a time *)

Lemma step_other_chats cfg ev w c :
  chat_of ev ≠ Some c →
  games_coll (step cfg ev w).2 !! c = games_coll w !! c.
Proof.
  intros Hc.
  destruct ev as [c' args response r now|c' admin|c' admin args|c' admin args
                  |c' admin args|c' u text env|u args]; cbn [step];
    try (assert (c' ≠ c) as Hne by (intros ->; by apply Hc)).
  - by rewrite new_game_spec.
  - unfold end_game. destruct admin; simpl; [|done].
    destruct (games_coll w !! c') as [g|]; [|done].
    destruct (live g); simpl; by rewrite lookup_delete_ne.
  - unfold update_settings. destruct admin; simpl; [|done].
    destruct args as [|key [|value [|? ?]]]; try done.
    destruct (validate_setting key value) as [v|]; [|done]. simpl.
    by rewrite lookup_insert_ne.
  - unfold ban_user. destruct admin; simpl; [|done].
    destruct args as [|a args]; [done|].
    destruct (_ ≫= _) as [target|]; [|done]. simpl.
    by rewrite lookup_alter_ne.
  - by rewrite (proj1 (kick_user_spec cfg c' admin args w)).
  - by rewrite (proj1 (proj2 (handle_guess_frame cfg env c' u text w))).
  - unfold language_command. by repeat case_match.
Qed.

(** X16. Events addressed to other chats leave the document of a chat
    as it is. *)
Theorem other_chats_untouched cfg evs c :
  ∀ w,
    Forall (fun ev => chat_of ev ≠ Some c) evs →
    games_coll (run cfg evs w).2 !! c = games_coll w !! c.
Proof.
  induction evs as [|ev evs IH]; intros w Hall; cbn [run]; [done|].
  apply Forall_cons in Hall as [Hev Hall].
  pose proof (step_other_chats cfg ev w c Hev) as Hstep.
  destruct (step cfg ev w) as [r w1]. specialize (IH w1 Hall).
  destruct (run cfg evs w1) as [rs w2]. simpl in *. congruence.
Qed.

Lemma other_chats_untouched_witness :
  let evs := [ESettings 8 true ["max_guesses"; "3"]; EBan 8 true ["43"];
              EGuess 8 42 "those" (Scenario.at_time 10); EEnd 8 true] in
  Forall (fun ev => chat_of ev ≠ Some 7) evs
  ∧ games_coll (run Scenario.cfg evs Scenario.three_guess_world).2 !! 7
    = games_coll Scenario.three_guess_world !! 7.
Proof.
  intros evs.
  assert (Forall (fun ev => chat_of ev ≠ Some 7) evs) as Hall
    by (repeat constructor; discriminate).
  split; [exact Hall|].
  exact (other_chats_untouched Scenario.cfg evs 7 Scenario.three_guess_world Hall).
Defined.

End Reachable.

(** ** /ban, /settings and /language *)

Section Moderation.
Import Store Clock Ledger Bot Inv Commands.



(** X18. A [/ban] in a chat that has no document replies as usual but
    stores nothing: the store is the one before the command. *)
Theorem ban_without_game_is_lost cfg chat_id admin args w :
  games_coll w !! chat_id = None →
  (ban_user cfg chat_id admin args w).2 = w.
Proof.
  intros Hg. unfold ban_user.
  repeat (case_match; simplify_eq/=; try done).
  destruct w as [g sc st b us rl]. unfold with_games. simpl in *. f_equal.
  apply map_eq. intros c. destruct (decide (c = chat_id)) as [->|Hc].
  - by rewrite lookup_alter_eq, Hg.
  - by rewrite lookup_alter_ne.
Qed.

Lemma ban_without_game_is_lost_witness :
  games_coll empty_world !! 7 = None
  ∧ ban_user Scenario.cfg 7 true ["42"] empty_world = (UserBanned, empty_world).
Proof.
  split; [done|].
  rewrite (surjective_pairing (ban_user Scenario.cfg 7 true ["42"] empty_world)).
  rewrite (ban_without_game_is_lost Scenario.cfg 7 true ["42"] empty_world); done.
Defined.



(** X20. After [/language es] every text of the player that would get
    a localized reply raises instead: the table of [es] is empty. The
    replies left are "slow down", silence, "you are banned" and an
    exception. *)
Theorem language_es_breaks_replies cfg env chat_id user_id text args w :
  let set := language_command user_id ("es" :: args) w in
  let res := handle_guess cfg env chat_id user_id text set.2 in
  set.1 = LanguageSet "es"
  ∧ get_user_language set.2 user_id = "es"
  ∧ (res.1 = SlowDown ∨ res.1 = NoReply ∨ res.1 = YouAreBanned
     ∨ ∃ e, res.1 = Raised e).
Proof.
  intros set res. subst set res. unfold language_command.
  rewrite bool_decide_eq_false_2 by (intros H; apply H; compute_done).
  cbn [fst snd]. split; [done|].
  assert (get_user_language (with_users (insert user_id "es") w) user_id = "es")
    as Hlang by (unfold get_user_language; simpl; by rewrite lookup_insert_eq).
  split; [done|].
  unfold handle_guess. rewrite Hlang. unfold say.
  rewrite (bool_decide_eq_false_2 ("es" = "en")) by done.
  repeat case_match; eauto 6.
  match goal with
  | |- context [record ?a ?b ?c ?d ?lang ?guess ?game ?mode ?w1] =>
      destruct (record_raises a b c d lang guess game mode w1) as (e & -> & _)
  end.
  eauto 6.
Qed.

End Moderation.

(** ** The leaderboard commands and the pagination buttons *)

Section Boards.
Import Store Clock Ledger Bot Inv Commands.

(** X21. [/leaderboard] never asks for the chat's board: whatever the
    arguments, it shows the usage line, or fails, or shows, under the
    heading of the scope it was given, the first page of the global board
    for a known period. With [group] as the scope it shows the usage
    line. *)
Theorem leaderboard_command_global cfg chat_id args w :
  (leaderboard_command cfg chat_id args w = ShowUsage
   ∨ leaderboard_command cfg chat_id args w = ShowRaised
   ∨ ∃ scope period b,
       scope ∈ ["scores"; "global"]
       ∧ period ∈ PERIODS
       ∧ get_leaderboard (get_users cfg) "global" chat_id period 1 5 w = Some b
       ∧ leaderboard_command cfg chat_id args w = ShowBoard scope period b)
  ∧ (match args with a :: _ => a = "group" | [] => False end →
     leaderboard_command cfg chat_id args w = ShowUsage).
Proof.
  unfold leaderboard_command.
  set (scope := match args with a :: _ => a | [] => "scores" end).
  set (period := match args with _ :: p :: _ => p | _ => "all_time" end).
  split.
  - case_bool_decide as Hs; [by left|].
    case_bool_decide as Hp; [by left|]. cbn [orb].
    assert (scope ≠ "group") as Hg.
    { intros Heq. rewrite Heq in Hs. rewrite !elem_of_cons, elem_of_nil in Hs.
      by destruct Hs as [?|[?|[]]]. }
    rewrite (bool_decide_eq_false_2 _ Hg).
    destruct (get_leaderboard (get_users cfg) "global" chat_id period 1 5 w)
      as [b|] eqn:Hb.
    + right; right. exists scope, period, b.
      split; [exact Hs|]. split; [exact Hp|]. done.
    + right; left. done.
  - intros Hgroup.
    assert (scope = "group") as -> by (subst scope; by destruct args).
    rewrite (bool_decide_eq_true_2 ("group" ∉ ["scores"; "global"]))
      by (rewrite !not_elem_of_cons; repeat split; try done; apply not_elem_of_nil).
    done.
Qed.

(** *** The callback data *)

Lemma length_split_on sep l :
  length (split_on sep l) = S (length (filter (fun c => c = sep) l)).
Proof.
  induction l as [|c l IH]; simpl; [done|].
  destruct (decide (c = sep)) as [->|Hc].
  - rewrite filter_cons_True by done. simpl. by rewrite IH.
  - rewrite filter_cons_False by done.
    destruct (split_on sep l) as [|field fields]; [done|]. simpl in *. done.
Qed.



Lemma count_elem (sep : ascii) l :
  sep ∈ l → (1 ≤ length (filter (fun c => c = sep) l))%nat.
Proof.
  induction l as [|c l IH]; [by intros ?%elem_of_nil|].
  intros [->|Hin]%elem_of_cons.
  - rewrite filter_cons_True by done. simpl. lia.
  - specialize (IH Hin). destruct (decide (c = sep)).
    + rewrite filter_cons_True by done. simpl. lia.
    + by rewrite filter_cons_False.
Qed.

(** X22. The button of a page whose period has an underscore in its name
    cannot be followed: [leaderboard_pagination] splits its data into more
    than three fields and raises [ValueError], whatever the scope and the
    page. Of the four periods this is [all_time]. *)
Theorem pagination_underscore_raises cfg chat_id scope period page w :
  "_"%char ∈ list_ascii_of_string period →
  leaderboard_pagination cfg chat_id (callback_data scope period page) w
  = ShowValueError.
Proof.
  intros Hin. unfold leaderboard_pagination.
  assert (4 ≤ length (tail (split_on "_"%char (callback_data scope period page))))%nat
    as Hlen.
  { assert (∀ l : list (list ascii), length (tail l) = Nat.pred (length l)) as ->
      by (by intros []).
    rewrite length_split_on. unfold callback_data. cbn [Nat.pred].
    rewrite !filter_app, !length_app.
    pose proof (count_elem "_"%char _ Hin).
    change (length (filter (fun c => c = "_"%char)
                      (list_ascii_of_string "leaderboard_"))) with 1%nat.
    change (length (filter (fun c => c = "_"%char) (list_ascii_of_string "_")))
      with 1%nat.
    lia. }
  destruct (tail (split_on "_"%char (callback_data scope period page)))
    as [|f1 [|f2 [|f3 [|f4 fs]]]]; simpl in Hlen; try lia. done.
Qed.

Lemma pagination_underscore_raises_witness :
  "_"%char ∈ list_ascii_of_string "all_time"
  ∧ leaderboard_pagination Scenario.cfg 7 (callback_data "global" "all_time" 2)
      empty_world
    = ShowValueError.
Proof.
  assert ("_"%char ∈ list_ascii_of_string "all_time") as Hin
    by (apply list_elem_of_lookup; by exists 3%nat).
  split; [exact Hin|].
  exact (pagination_underscore_raises Scenario.cfg 7 "global" "all_time" 2
           empty_world Hin).
Defined.

(** *** [int] of a printed number *)











End Boards.

(** ** /myscore after a win, and the dashboard *)

Section ScoresRead.
Import Store Clock Ledger Bot Inv Commands.





(** *** Every score document has a positive global all-time count *)






End ScoresRead.

(** ** The SQLite variant: scores, settings and the leaderboard *)

Section Variant.
Import Bot WordSeekCommands.

(** X26. The variant's [handle_guess] never writes a guess either:
    whatever the text and the database, the reply is none of "win",
    "game over" and "guesses left", the tables are left as they were, and
    a text that passes the checks raises [OperationalError]: the
    handler's own pending [UPDATE] locks the database against
    [update_stats]. *)
Theorem wordseek_guess_never_records cfg env chat_id user_id text d :
  let res := WordSeek.handle_guess cfg env chat_id user_id text d in
  recorded res.1 = false
  ∧ is_outcome res.1 = false
  ∧ WordSeek.games res.2 = WordSeek.games d
  ∧ WordSeek.scores res.2 = WordSeek.scores d
  ∧ WordSeek.stats res.2 = WordSeek.stats d
  ∧ WordSeek.games_started res.2 = WordSeek.games_started d
  ∧ WordSeek.guesses_made res.2 = WordSeek.guesses_made d
  ∧ (WordSeek.passes_checks cfg env chat_id user_id text d = false
     ∨ res.1 = Raised OperationalError).
Proof.
  intros res.
  destruct (wordseek_handle_guess_spec cfg env chat_id user_id text d)
    as (Hrec & Hg & Hsc & Hst & Hgs & Hgm & Hp).
  fold res in Hrec, Hg, Hsc, Hst, Hgs, Hgm, Hp.
  repeat split; try done.
  - by destruct (res.1).
  - destruct (WordSeek.passes_checks cfg env chat_id user_id text d); auto.
Qed.

(** X27. [/leaderboard] of the variant with fewer than two arguments
    shows the usage line: the period then defaults to [all], which is
    none of the four periods. *)
Theorem wordseek_leaderboard_needs_period get_users chat_id args d :
  (length args < 2)%nat →
  leaderboard_command get_users chat_id args d = None.
Proof.
  intros Hlen. unfold leaderboard_command.
  assert (match args with _ :: p :: _ => p | _ => "all" end = "all") as ->.
  { destruct args as [|a [|b l]]; simpl in *; try done. lia. }
  rewrite (bool_decide_eq_true_2 ("all" ∉ ["today"; "week"; "month"; "all_time"]))
    by compute_done.
  by rewrite orb_true_r.
Qed.

Lemma wordseek_leaderboard_needs_period_witness :
  (length ["global"] < 2)%nat
  ∧ leaderboard_command Scenario.name_of 7 ["global"] Scenario.five_rows = None.
Proof.
  assert (length ["global"] < 2)%nat as Hlen by (simpl; lia).
  split; [exact Hlen|].
  exact (wordseek_leaderboard_needs_period Scenario.name_of 7 ["global"]
           Scenario.five_rows Hlen).
Defined.

Lemma column_update_score period old :
  period ∈ ["today"; "week"; "month"; "all_time"] →
  ∃ n, WordSeek.column period old = Some n
       ∧ WordSeek.column period
           {| WordSeek.today := WordSeek.today old + 1;
              WordSeek.week := WordSeek.week old + 1;
              WordSeek.month := WordSeek.month old + 1;
              WordSeek.all_time := WordSeek.all_time old + 1 |}
         = Some (n + 1).
Proof.
  rewrite !elem_of_cons, elem_of_nil.
  intros [->|[->|[->|[->|[]]]]]; eexists; split; reflexivity.
Qed.

(** X28. In the variant, [update_score] followed by the group branch of
    [/myscore] shows one more than before for each of the four periods,
    whatever the time of day, and the rows of other players or chats read
    as before. *)
Theorem wordseek_myscore_after_update_score user_id chat_id period d :
  period ∈ ["today"; "week"; "month"; "all_time"] →
  (∃ n, myscore_group user_id chat_id period d = Some n
        ∧ myscore_group user_id chat_id period
            (WordSeek.update_score user_id chat_id d)
          = Some (n + 1))
  ∧ (∀ u c, (u, c) ≠ (user_id, chat_id) →
       myscore_group u c period (WordSeek.update_score user_id chat_id d)
       = myscore_group u c period d).
Proof.
  intros Hp. split.
  - unfold myscore_group, WordSeek.update_score. simpl.
    rewrite lookup_insert_eq.
    destruct (WordSeek.scores d !! (user_id, chat_id)) as [old|]; simpl.
    + apply column_update_score, Hp.
    + destruct (column_update_score period
                  {| WordSeek.today := 0; WordSeek.week := 0; WordSeek.month := 0;
                     WordSeek.all_time := 0 |} Hp) as (n & Hn & Hn').
      exists 0. split; [done|]. simpl in Hn'. rewrite Hn'. f_equal.
      revert Hn. rewrite !elem_of_cons, elem_of_nil in Hp.
      destruct Hp as [->|[->|[->|[->|[]]]]]; intros [= <-]; done.
  - intros u c Hne. unfold myscore_group, WordSeek.update_score. simpl.
    by rewrite lookup_insert_ne.
Qed.

Lemma wordseek_myscore_after_update_score_witness :
  "week" ∈ ["today"; "week"; "month"; "all_time"]
  ∧ (∃ n, myscore_group 3 7 "week" Scenario.five_rows = Some n
          ∧ myscore_group 3 7 "week" (WordSeek.update_score 3 7 Scenario.five_rows)
            = Some (n + 1))
  ∧ (∀ u c, (u, c) ≠ (3, 7) →
       myscore_group u c "week" (WordSeek.update_score 3 7 Scenario.five_rows)
       = myscore_group u c "week" Scenario.five_rows).
Proof.
  assert ("week" ∈ ["today"; "week"; "month"; "all_time"]) as Hp by compute_done.
  split; [exact Hp|].
  exact (wordseek_myscore_after_update_score 3 7 "week" Scenario.five_rows Hp).
Defined.

(** X29. The variant's [/settings] never changes what a guess is checked
    against: whatever the arguments, a running game keeps its word, its
    log and its [word_length]; the key that can be set is [length]. *)
Theorem wordseek_settings_keep_word_length chat_id admin args d g :
  WordSeek.games d !! chat_id = Some g →
  ∃ g',
    WordSeek.games (WordSeek.update_settings chat_id admin args d).2 !! chat_id
    = Some g'
    ∧ WordSeek.word g' = WordSeek.word g
    ∧ WordSeek.guesses g' = WordSeek.guesses g
    ∧ WordSeek.settings g' !! "word_length" = WordSeek.settings g !! "word_length".
Proof.
  intros Hg. unfold WordSeek.update_settings.
  destruct (negb admin); [by exists g|].
  destruct args as [|key [|value [|? ?]]]; try (by exists g).
  destruct (Text.int_of_string value) as [v|]; [|by exists g].
  case_bool_decide as Hkey; [by exists g|].
  destruct (v <=? 0); simpl; [by exists g|].
  rewrite lookup_alter_eq, Hg. simpl. eexists. split; [done|]. simpl.
  split; [done|]. split; [done|].
  rewrite lookup_insert_ne; [done|].
  intros ->. rewrite !elem_of_cons, elem_of_nil in Hkey.
  by destruct Hkey as [?|[?|[?|[]]]].
Qed.

Lemma wordseek_settings_keep_word_length_witness :
  let d := (WordSeek.new_game ["those"] 0 0 7 WordSeek.empty_db).2 in
  let g := {| WordSeek.word := "those"; WordSeek.guesses := [];
              WordSeek.players := ∅; WordSeek.start_time := 0;
              WordSeek.settings := WordSeek.DEFAULT_SETTINGS |} in
  WordSeek.games d !! 7 = Some g
  ∧ ∃ g',
      WordSeek.games (WordSeek.update_settings 7 true ["length"; "7"] d).2 !! 7
      = Some g'
      ∧ WordSeek.word g' = WordSeek.word g
      ∧ WordSeek.guesses g' = WordSeek.guesses g
      ∧ WordSeek.settings g' !! "word_length" = WordSeek.settings g !! "word_length".
Proof.
  intros d g.
  assert (WordSeek.games d !! 7 = Some g) as Hg by reflexivity.
  split; [exact Hg|].
  exact (wordseek_settings_keep_word_length 7 true ["length"; "7"] d g Hg).
Defined.

(** X30. In the variant, when every display name can be fetched and the
    rows selected for the board are exactly [page * 5], page [page] is
    full and offers [Next], and the page it leads to has no line. *)
Theorem wordseek_next_leads_to_empty_page (name : Z → string) scope chat_id period
    page d :
  period ∈ ["today"; "week"; "month"; "all_time"] →
  1 ≤ page →
  Z.of_nat (length (filter (fun e : Z * Z * WordSeek.score_row =>
                              0 < WordSeek.col period e
                              ∧ (scope = "group" → e.1.2 = chat_id))
                           (map_to_list (WordSeek.scores d))))
  = page * 5 →
  ∃ b b',
    WordSeek.get_leaderboard (fun u => Some (name u)) scope chat_id period page 5 d
    = Some b
    ∧ length (Ledger.lines b) = 5%nat
    ∧ Ledger.has_next b = true
    ∧ WordSeek.get_leaderboard (fun u => Some (name u)) scope chat_id period
        (page + 1) 5 d
      = Some b'
    ∧ Ledger.lines b' = [].
Proof.
  intros Hp Hpage Hlen. unfold WordSeek.get_leaderboard.
  rewrite bool_decide_eq_true_2 by done.
  set (selected := filter _ (map_to_list (WordSeek.scores d))) in *.
  set (sorted := merge_sort (WordSeek.col_ge period) selected).
  assert (length sorted = length selected) as Hsorted
    by (subst sorted; by rewrite merge_sort_Permutation).
  rewrite !(omap_total _ (fun e : Z * Z * WordSeek.score_row =>
                            (name e.1.1, WordSeek.col period e))) by done.
  assert (length (take (Z.to_nat 5) (drop (Z.to_nat ((page - 1) * 5)) sorted))
          = 5%nat) as Hfull
    by (rewrite length_take, length_drop, Hsorted; lia).
  assert (drop (Z.to_nat ((page + 1 - 1) * 5)) sorted = []) as Hnext
    by (apply drop_ge; lia).
  eexists _, _. split; [reflexivity|]. cbn [Ledger.lines Ledger.has_next].
  rewrite length_imap, length_fmap, Hfull.
  split; [done|]. split; [done|]. split; [reflexivity|].
  cbn [Ledger.lines]. rewrite Hnext. done.
Qed.

Lemma wordseek_next_leads_to_empty_page_witness :
  "all_time" ∈ ["today"; "week"; "month"; "all_time"]
  ∧ 1 ≤ 1
  ∧ Z.of_nat (length (filter (fun e : Z * Z * WordSeek.score_row =>
                                0 < WordSeek.col "all_time" e
                                ∧ ("group" = "group" → e.1.2 = 7))
                             (map_to_list (WordSeek.scores Scenario.five_rows))))
    = 1 * 5
  ∧ ∃ b b',
      WordSeek.get_leaderboard (fun u => Some (pretty u)) "group" 7 "all_time" 1 5
        Scenario.five_rows
      = Some b
      ∧ length (Ledger.lines b) = 5%nat
      ∧ Ledger.has_next b = true
      ∧ WordSeek.get_leaderboard (fun u => Some (pretty u)) "group" 7 "all_time"
          (1 + 1) 5 Scenario.five_rows
        = Some b'
      ∧ Ledger.lines b' = [].
Proof.
  assert ("all_time" ∈ ["today"; "week"; "month"; "all_time"]) as H1 by compute_done.
  assert (1 ≤ 1) as H2 by lia.
  assert (Z.of_nat (length (filter (fun e : Z * Z * WordSeek.score_row =>
                                0 < WordSeek.col "all_time" e
                                ∧ ("group" = "group" → e.1.2 = 7))
                             (map_to_list (WordSeek.scores Scenario.five_rows))))
          = 1 * 5) as H3 by (by vm_compute).
  split; [exact H1|]. split; [exact H2|]. split; [exact H3|].
  exact (wordseek_next_leads_to_empty_page pretty "group" 7 "all_time" 1
           Scenario.five_rows H1 H2 H3).
Defined.

End Variant.
